(** * dart-sql-generator: the schema utilities of [core/database.py]

    A shallow embedding of [parse_sql_schema], [load_schema_from_file],
    [format_schema_for_prompt] and [validate_schema], and the properties
    of them that the specification states.

    Conventions of the model.
    - Text is [string]; it is read as ASCII text.  On ASCII, Python's
      Unicode-aware [str.isspace], [\s], [\w], [str.upper] and the
      [re.IGNORECASE] comparison are the functions given below.
    - Python values are the inductive type [pyval]; dictionaries are
      association lists in insertion order, as [dict] keeps them.
    - A Python exception is the [Raise] case of the type [result].
    - Calls to the logger do not change any result; they are recorded
      only where the order of effects matters (the loader). *)

From Stdlib Require Import String Ascii List Bool Arith ZArith Lia.
From Stdlib Require Import DecimalString.
Import ListNotations.
Open Scope string_scope.
Open Scope nat_scope.

(* ================================================================= *)
(** ** Characters and text *)

Module Text.

Definition code (c : ascii) : nat := nat_of_ascii c.

(** [str.isspace] on ASCII: TAB, LF, VT, FF, CR, the four separators
    FS, GS, RS, US, and the blank. *)
Definition is_space (c : ascii) : bool :=
  let n := code c in
  ((9 <=? n) && (n <=? 13)) || ((28 <=? n) && (n <=? 32)).

Definition is_lower (c : ascii) : bool :=
  let n := code c in (97 <=? n) && (n <=? 122).

Definition is_upper (c : ascii) : bool :=
  let n := code c in (65 <=? n) && (n <=? 90).

Definition is_digit (c : ascii) : bool :=
  let n := code c in (48 <=? n) && (n <=? 57).

(** The class [\w] on ASCII: letters, digits and the underscore. *)
Definition is_word (c : ascii) : bool :=
  is_lower c || is_upper c || is_digit c || (code c =? 95).

Definition upper_char (c : ascii) : ascii :=
  if is_lower c then ascii_of_nat (code c - 32) else c.

Definition lower_char (c : ascii) : ascii :=
  if is_upper c then ascii_of_nat (code c + 32) else c.

Fixpoint map_str (f : ascii -> ascii) (s : string) : string :=
  match s with
  | EmptyString => EmptyString
  | String c s' => String (f c) (map_str f s')
  end.

(** [s.upper()] and [s.lower()]. *)
Definition upper (s : string) : string := map_str upper_char s.
Definition lower (s : string) : string := map_str lower_char s.

(** [s.startswith(p)]. *)
Fixpoint startswith (s p : string) : bool :=
  match p with
  | EmptyString => true
  | String b p' =>
      match s with
      | EmptyString => false
      | String a s' => Ascii.eqb a b && startswith s' p'
      end
  end.

Fixpoint all_chars (p : ascii -> bool) (s : string) : bool :=
  match s with
  | EmptyString => true
  | String c s' => p c && all_chars p s'
  end.

Fixpoint lstrip (s : string) : string :=
  match s with
  | EmptyString => EmptyString
  | String c s' => if is_space c then lstrip s' else s
  end.

Fixpoint rstrip (s : string) : string :=
  match s with
  | EmptyString => EmptyString
  | String c s' =>
      match rstrip s' with
      | EmptyString => if is_space c then EmptyString else String c EmptyString
      | r => String c r
      end
  end.

(** [s.strip()]: white space removed at both ends. *)
Definition strip (s : string) : string := rstrip (lstrip s).

(** [s.split(sep)] for a one-character separator: every occurrence
    cuts, and the result always has at least one piece. *)
Fixpoint split_on (sep : ascii) (s : string) : list string :=
  match s with
  | EmptyString => [EmptyString]
  | String c s' =>
      if Ascii.eqb c sep then EmptyString :: split_on sep s'
      else match split_on sep s' with
           | piece :: rest => String c piece :: rest
           | [] => [String c EmptyString]
           end
  end.

(** The first maximal run of characters that are not white space, and
    what follows it. *)
Fixpoint take_word (s : string) : string * string :=
  match s with
  | EmptyString => (EmptyString, EmptyString)
  | String c s' =>
      if is_space c then (EmptyString, s)
      else let (w, r) := take_word s' in (String c w, r)
  end.

(** [s.split(None, 1)]: leading white space is skipped; the first word
    is cut off; the white space after it is skipped; what remains, if
    anything, is the second piece, kept as it is. *)
Definition split_none_1 (s : string) : list string :=
  match lstrip s with
  | EmptyString => []
  | s1 =>
      let (w, r) := take_word s1 in
      match lstrip r with
      | EmptyString => [w]
      | r1 => [w; r1]
      end
  end.

(** [s[i:j]] for [0 <= i <= j]. *)
Definition slice (s : string) (i j : nat) : string := substring i (j - i) s.

(** [sep.join(l)]. *)
Fixpoint join (sep : string) (l : list string) : string :=
  match l with
  | [] => EmptyString
  | [x] => x
  | x :: rest => x ++ sep ++ join sep rest
  end.

(** [needle in s]. *)
Fixpoint contains (s needle : string) : bool :=
  startswith s needle ||
  match s with
  | EmptyString => false
  | String _ s' => contains s' needle
  end.

End Text.

(* ================================================================= *)
(** ** Regular expressions: the fragment of [re] the module uses *)

Module Re.
Import Text.

(** One-character items. *)
Inductive atom : Type :=
| Chr (c : ascii)      (* a literal character *)
| Space                (* \s *)
| Word                 (* \w *)
| Dot.                 (* . *)

Inductive quant : Type :=
| Once                 (* x   *)
| Plus                 (* x+  *)
| Star                 (* x*  *)
| LazyStar.            (* x*? *)

(** A pattern is a sequence of quantified items and group marks, as the
    compiled form of [re] has them. *)
Inductive node : Type :=
| Rep (q : quant) (a : atom)
| GroupOpen
| GroupClose.

Definition regex := list node.

(** Flags: the module uses [re.IGNORECASE] everywhere and [re.DOTALL]
    for the statement pattern. *)
Record flags : Type := Flags { ignorecase : bool; dotall : bool }.

Definition atom_matches (f : flags) (a : atom) (c : ascii) : bool :=
  match a with
  | Chr x =>
      if ignorecase f then Ascii.eqb (lower_char c) (lower_char x)
      else Ascii.eqb c x
  | Space => is_space c
  | Word => is_word c
  | Dot => dotall f || negb (Ascii.eqb c "010"%char)
  end.

(** *** Reading a pattern *)

Definition quantify (a : atom) (rest : string) : node * string :=
  match rest with
  | String "+" r => (Rep Plus a, r)
  | String "*" (String "?" r) => (Rep LazyStar a, r)
  | String "*" r => (Rep Star a, r)
  | _ => (Rep Once a, rest)
  end.

Definition is_meta (c : ascii) : bool :=
  existsb (Ascii.eqb c)
    ["["; "]"; "{"; "}"; "|"; "^"; "$"; "?"; "+"; "*"]%char.

(** The reader accepts exactly the syntax the three patterns of the
    module are written in; anything else is refused. *)
Fixpoint parse_fuel (fuel : nat) (p : string) : option regex :=
  match fuel with
  | 0 => None
  | S fuel' =>
      match p with
      | EmptyString => Some []
      | String "(" r => option_map (cons GroupOpen) (parse_fuel fuel' r)
      | String ")" r => option_map (cons GroupClose) (parse_fuel fuel' r)
      | String "\" (String e r) =>
          let item (a : atom) :=
            let (n, r') := quantify a r in
            option_map (cons n) (parse_fuel fuel' r') in
          if Ascii.eqb e "s" then item Space
          else if Ascii.eqb e "w" then item Word
          else if is_word e then None
          else item (Chr e)
      | String "\" EmptyString => None
      | String "." r =>
          let (n, r') := quantify Dot r in
          option_map (cons n) (parse_fuel fuel' r')
      | String c r =>
          if is_meta c then None
          else let (n, r') := quantify (Chr c) r in
               option_map (cons n) (parse_fuel fuel' r')
      end
  end.

Definition parse (p : string) : option regex :=
  parse_fuel (S (String.length p)) p.

(** *** Matching *)

(** The outcome of a match attempt: the end position and the group
    marks met on the way, in order. *)
Definition outcome := (nat * list nat)%type.

(** [x*] and [x+] take as many characters as they can and give them
    back one at a time while the rest of the pattern fails. *)
Fixpoint greedy (ok : ascii -> bool) (k : string -> nat -> option outcome)
    (s : string) (pos : nat) : option outcome :=
  match s with
  | String c s' =>
      if ok c then
        match greedy ok k s' (S pos) with
        | Some r => Some r
        | None => k s pos
        end
      else k s pos
  | EmptyString => k s pos
  end.

(** [x*?] tries the rest of the pattern first and takes one more
    character each time it fails. *)
Fixpoint lazy (ok : ascii -> bool) (k : string -> nat -> option outcome)
    (s : string) (pos : nat) : option outcome :=
  match k s pos with
  | Some r => Some r
  | None =>
      match s with
      | String c s' => if ok c then lazy ok k s' (S pos) else None
      | EmptyString => None
      end
  end.

(** [match_here f r s pos marks]: the pattern [r] matched against the
    text [s], which starts at position [pos] of the subject. *)
Fixpoint match_here (f : flags) (r : regex) (s : string) (pos : nat)
    (marks : list nat) : option outcome :=
  match r with
  | [] => Some (pos, marks)
  | GroupOpen :: r' => match_here f r' s pos (marks ++ [pos])
  | GroupClose :: r' => match_here f r' s pos (marks ++ [pos])
  | Rep Once a :: r' =>
      match s with
      | String c s' =>
          if atom_matches f a c then match_here f r' s' (S pos) marks
          else None
      | EmptyString => None
      end
  | Rep Plus a :: r' =>
      match s with
      | String c s' =>
          if atom_matches f a c
          then greedy (atom_matches f a)
                 (fun t p => match_here f r' t p marks) s' (S pos)
          else None
      | EmptyString => None
      end
  | Rep Star a :: r' =>
      greedy (atom_matches f a) (fun t p => match_here f r' t p marks) s pos
  | Rep LazyStar a :: r' =>
      lazy (atom_matches f a) (fun t p => match_here f r' t p marks) s pos
  end.

(** A match object: where the match starts and ends in the subject, and
    the text of its groups. *)
Record rmatch : Type := RMatch {
  m_start : nat;
  m_end : nat;
  m_groups : list string
}.

Fixpoint groups_of (subject : string) (marks : list nat) : list string :=
  match marks with
  | i :: j :: rest => slice subject i j :: groups_of subject rest
  | _ => []
  end.

Definition mk_match (subject : string) (start : nat) (o : outcome) : rmatch :=
  RMatch start (fst o) (groups_of subject (snd o)).

(** [m.group(n)] for [n >= 1]; a pattern's groups all take part in
    every match of it, so the text is always there. *)
Definition group (m : rmatch) (n : nat) : string :=
  nth (n - 1) (m_groups m) EmptyString.

(** [re.search]: the match at the leftmost position that has one. *)
Fixpoint search_from (f : flags) (r : regex) (subject s : string)
    (pos : nat) : option rmatch :=
  match match_here f r s pos [] with
  | Some o => Some (mk_match subject pos o)
  | None =>
      match s with
      | String _ s' => search_from f r subject s' (S pos)
      | EmptyString => None
      end
  end.

Definition search (f : flags) (r : regex) (subject : string) : option rmatch :=
  search_from f r subject subject 0.

(** [re.finditer]: the matches from left to right, each search starting
    where the previous match ended.  [skip] counts the characters of
    the last match that are still to be passed.  The one pattern this
    is used with matches no empty text (lemma
    [create_table_match_takes_text]), so the scanner's rule for empty
    matches is left out. *)
Fixpoint finditer_from (f : flags) (r : regex) (subject s : string)
    (pos skip : nat) : list rmatch :=
  match skip with
  | S k =>
      match s with
      | String _ s' => finditer_from f r subject s' (S pos) k
      | EmptyString => []
      end
  | 0 =>
      match match_here f r s pos [] with
      | Some o =>
          mk_match subject pos o ::
          match s with
          | String _ s' =>
              finditer_from f r subject s' (S pos) (fst o - pos - 1)
          | EmptyString => []
          end
      | None =>
          match s with
          | String _ s' => finditer_from f r subject s' (S pos) 0
          | EmptyString => []
          end
      end
  end.

Definition finditer (f : flags) (r : regex) (subject : string) : list rmatch :=
  finditer_from f r subject subject 0 0.

End Re.

(* ================================================================= *)
(** ** Python values, exceptions and dictionaries *)

Module Py.
Import Text.

(** The line feed, written [\n] in the source. *)
Definition nl : string := String "010"%char EmptyString.

(** Hashable values that serve as dictionary keys. *)
Inductive pykey : Type :=
| KNone
| KBool (b : bool)
| KInt (n : Z)
| KStr (s : string).

(** The values a decoded JSON or YAML document and the extractor are
    made of. *)
#[warnings="-register-all"]
Inductive pyval : Type :=
| PNone
| PBool (b : bool)
| PInt (n : Z)
| PStr (s : string)
| PList (l : list pyval)
| PDict (d : list (pykey * pyval)).

(** A [dict]: keys in insertion order, no key twice. *)
Definition dict := list (pykey * pyval).

Inductive exn_class : Type :=
| KeyError
| TypeError
| AttributeError
| FileNotFoundError
| ValueError
| OtherError (name : string).

Record exn : Type := Exn { exn_cls : exn_class; exn_msg : string }.

Inductive result (A : Type) : Type :=
| Ok (a : A)
| Raise (e : exn).
Arguments Ok {A} a.
Arguments Raise {A} e.

Definition bind {A B : Type} (m : result A) (k : A -> result B) : result B :=
  match m with
  | Ok a => k a
  | Raise e => Raise e
  end.

Notation "x <- m ;; k" := (bind m (fun x => k))
  (at level 61, m at next level, right associativity).

(** A [for] loop whose body may raise: the state is threaded through
    the items from left to right and the first exception ends it. *)
Fixpoint for_each {A S : Type} (items : list A) (st : S)
    (body : S -> A -> result S) : result S :=
  match items with
  | [] => Ok st
  | x :: rest => st' <- body st x ;; for_each rest st' body
  end.

(** Key equality is Python's [==] on hashable values: [True == 1] and
    [False == 0]. *)
Definition key_eqb (a b : pykey) : bool :=
  match a, b with
  | KNone, KNone => true
  | KStr s, KStr t => String.eqb s t
  | KInt n, KInt m => Z.eqb n m
  | KBool x, KBool y => Bool.eqb x y
  | KBool x, KInt m => Z.eqb (Z.b2z x) m
  | KInt n, KBool y => Z.eqb n (Z.b2z y)
  | _, _ => false
  end.

Fixpoint dict_get (d : dict) (k : pykey) : option pyval :=
  match d with
  | [] => None
  | (k', v) :: rest => if key_eqb k' k then Some v else dict_get rest k
  end.

(** [k in d]. *)
Definition dict_mem (d : dict) (k : pykey) : bool :=
  match dict_get d k with Some _ => true | None => false end.

(** [d[k] = v]: an existing key keeps its place, a new one goes last. *)
Fixpoint dict_set (d : dict) (k : pykey) (v : pyval) : dict :=
  match d with
  | [] => [(k, v)]
  | (k', v') :: rest =>
      if key_eqb k' k then (k', v) :: rest
      else (k', v') :: dict_set rest k v
  end.

Definition type_name (v : pyval) : string :=
  match v with
  | PNone => "NoneType"
  | PBool _ => "bool"
  | PInt _ => "int"
  | PStr _ => "str"
  | PList _ => "list"
  | PDict _ => "dict"
  end.

(** *** Text of a value: [str] and [repr] *)

Definition int_str (n : Z) : string := NilZero.string_of_int (Z.to_int n).

Definition hex_digit (n : nat) : ascii :=
  if n <? 10 then ascii_of_nat (48 + n) else ascii_of_nat (87 + n).

Definition escape_char (quote c : ascii) : string :=
  if Ascii.eqb c "\" then "\\"
  else if Ascii.eqb c quote then String "\" (String c EmptyString)
  else if Ascii.eqb c "009" then "\t"
  else if Ascii.eqb c "010" then "\n"
  else if Ascii.eqb c "013" then "\r"
  else if (code c <? 32) || (code c =? 127) then
    String "\" (String "x" (String (hex_digit (code c / 16))
                              (String (hex_digit (code c mod 16)) EmptyString)))
  else String c EmptyString.

Fixpoint escape (quote : ascii) (s : string) : string :=
  match s with
  | EmptyString => EmptyString
  | String c s' => escape_char quote c ++ escape quote s'
  end.

Fixpoint has_char (c : ascii) (s : string) : bool :=
  match s with
  | EmptyString => false
  | String a s' => Ascii.eqb a c || has_char c s'
  end.

(** [repr] of a [str]: single quotes, unless the text has a single
    quote and no double quote. *)
Definition str_repr (s : string) : string :=
  let quote : ascii :=
    if has_char "'" s && negb (has_char "034" s) then "034"%char
    else "'"%char in
  String quote (escape quote s) ++ String quote EmptyString.

Definition key_repr (k : pykey) : string :=
  match k with
  | KNone => "None"
  | KBool true => "True"
  | KBool false => "False"
  | KInt n => int_str n
  | KStr s => str_repr s
  end.

(** What an f-string puts for a key: [str(k)]. *)
Definition key_str (k : pykey) : string :=
  match k with
  | KStr s => s
  | _ => key_repr k
  end.

Fixpoint py_repr (v : pyval) : string :=
  match v with
  | PNone => "None"
  | PBool true => "True"
  | PBool false => "False"
  | PInt n => int_str n
  | PStr s => str_repr s
  | PList l => "[" ++ join ", " (map py_repr l) ++ "]"
  | PDict d =>
      "{" ++ join ", "
               (map (fun kv : pykey * pyval =>
                       let (k, x) := kv in key_repr k ++ ": " ++ py_repr x) d)
          ++ "}"
  end.

(** What an f-string puts for a value: [str(v)]. *)
Definition py_str (v : pyval) : string :=
  match v with
  | PStr s => s
  | _ => py_repr v
  end.

Definition value_of_key (k : pykey) : pyval :=
  match k with
  | KNone => PNone
  | KBool b => PBool b
  | KInt n => PInt n
  | KStr s => PStr s
  end.

(** Truth value of a value in a condition. *)
Definition truthy (v : pyval) : bool :=
  match v with
  | PNone => false
  | PBool b => b
  | PInt n => negb (Z.eqb n 0)
  | PStr s => negb (String.eqb s EmptyString)
  | PList l => match l with [] => false | _ => true end
  | PDict d => match d with [] => false | _ => true end
  end.

(** *** Operations that may raise *)

(** [o[k]] for a [str] key [k]. *)
Definition getitem (o : pyval) (k : string) : result pyval :=
  match o with
  | PDict d =>
      match dict_get d (KStr k) with
      | Some v => Ok v
      | None => Raise (Exn KeyError (str_repr k))
      end
  | PList _ =>
      Raise (Exn TypeError "list indices must be integers or slices, not str")
  | PStr _ => Raise (Exn TypeError "string indices must be integers, not 'str'")
  | _ => Raise (Exn TypeError
                  ("'" ++ type_name o ++ "' object is not subscriptable"))
  end.

(** [o[k] = v] for a [str] key [k]; the object after the assignment. *)
Definition setitem (o : pyval) (k : string) (v : pyval) : result pyval :=
  match o with
  | PDict d => Ok (PDict (dict_set d (KStr k) v))
  | PList _ =>
      Raise (Exn TypeError "list indices must be integers or slices, not str")
  | _ => Raise (Exn TypeError
                  ("'" ++ type_name o
                       ++ "' object does not support item assignment"))
  end.

(** [o.append(x)]; the object after the call. *)
Definition append (o : pyval) (x : pyval) : result pyval :=
  match o with
  | PList l => Ok (PList (l ++ [x]))
  | _ => Raise (Exn AttributeError
                  ("'" ++ type_name o ++ "' object has no attribute 'append'"))
  end.

(** [o.items()]. *)
Definition items (o : pyval) : result (list (pykey * pyval)) :=
  match o with
  | PDict d => Ok d
  | _ => Raise (Exn AttributeError
                  ("'" ++ type_name o ++ "' object has no attribute 'items'"))
  end.

Fixpoint chars (s : string) : list pyval :=
  match s with
  | EmptyString => []
  | String c s' => PStr (String c EmptyString) :: chars s'
  end.

(** The values a [for] loop over [o] goes through. *)
Definition iterate (o : pyval) : result (list pyval) :=
  match o with
  | PList l => Ok l
  | PDict d => Ok (map (fun kv => value_of_key (fst kv)) d)
  | PStr s => Ok (chars s)
  | _ => Raise (Exn TypeError
                  ("'" ++ type_name o ++ "' object is not iterable"))
  end.

End Py.

(* ================================================================= *)
(** ** [core/database.py] *)

Module Database.
Import Text Re Py.

(** *** [parse_sql_schema] *)

Definition lit (s : string) : regex :=
  map (fun c => Rep Once (Chr c)) (list_ascii_of_string s).

Definition create_table_pattern : string :=
  "CREATE\s+TABLE\s+(\w+)\s*\((.*?)\);".

Definition create_table_re : regex :=
  (lit "CREATE" ++ [Rep Plus Space] ++ lit "TABLE" ++ [Rep Plus Space]
     ++ [GroupOpen; Rep Plus Word; GroupClose]
     ++ [Rep Star Space] ++ lit "("
     ++ [GroupOpen; Rep LazyStar Dot; GroupClose]
     ++ lit ");")%list.

Definition primary_key_pattern : string :=
  "PRIMARY\s+KEY\s*\((\w+)\)".

Definition primary_key_re : regex :=
  (lit "PRIMARY" ++ [Rep Plus Space] ++ lit "KEY" ++ [Rep Star Space]
     ++ lit "(" ++ [GroupOpen; Rep Plus Word; GroupClose] ++ lit ")")%list.

Definition foreign_key_pattern : string :=
  "FOREIGN\s+KEY\s*\((\w+)\)\s+REFERENCES\s+(\w+)\s*\((\w+)\)".

Definition foreign_key_re : regex :=
  (lit "FOREIGN" ++ [Rep Plus Space] ++ lit "KEY" ++ [Rep Star Space]
     ++ lit "(" ++ [GroupOpen; Rep Plus Word; GroupClose] ++ lit ")"
     ++ [Rep Plus Space] ++ lit "REFERENCES" ++ [Rep Plus Space]
     ++ [GroupOpen; Rep Plus Word; GroupClose]
     ++ [Rep Star Space] ++ lit "("
     ++ [GroupOpen; Rep Plus Word; GroupClose] ++ lit ")")%list.

(** [re.IGNORECASE | re.DOTALL] and [re.IGNORECASE]. *)
Definition icase_dotall : flags := Flags true true.
Definition icase : flags := Flags true false.

(** The dictionary a table starts with (lines 32-36). *)
Definition new_table : pyval :=
  PDict [(KStr "columns", PDict []);
         (KStr "primary_key", PNone);
         (KStr "foreign_keys", PList [])].

(** [schema[table_name]], with [schema] a [dict]. *)
Definition table_of (schema : dict) (table_name : string) : result pyval :=
  getitem (PDict schema) table_name.

(** The body of the loop over the column definitions (lines 42-68).
    [schema[table_name][...]] changes the table's dictionary in place;
    here the changed dictionary is put back at its key. *)
Definition parse_clause (table_name : string) (schema : dict)
    (col_def : string) : result dict :=
  let col_def := strip col_def in
  if startswith (upper col_def) "PRIMARY KEY" then
    match search icase primary_key_re col_def with
    | Some pk_match =>
        table <- table_of schema table_name ;;
        table' <- setitem table "primary_key" (PStr (group pk_match 1)) ;;
        Ok (dict_set schema (KStr table_name) table')
    | None => Ok schema
    end
  else if startswith (upper col_def) "FOREIGN KEY" then
    match search icase foreign_key_re col_def with
    | Some fk_match =>
        let fk_str :=
          group fk_match 1 ++ " -> " ++ group fk_match 2 ++ "."
            ++ group fk_match 3 in
        table <- table_of schema table_name ;;
        fks <- getitem table "foreign_keys" ;;
        fks' <- append fks (PStr fk_str) ;;
        table' <- setitem table "foreign_keys" fks' ;;
        Ok (dict_set schema (KStr table_name) table')
    | None => Ok schema
    end
  else
    let parts := split_none_1 col_def in
    if 2 <=? List.length parts then
      let col_name := nth 0 parts EmptyString in
      let col_type := nth 1 parts EmptyString in
      table <- table_of schema table_name ;;
      cols <- getitem table "columns" ;;
      cols' <- setitem cols col_name (PStr col_type) ;;
      table' <- setitem table "columns" cols' ;;
      Ok (dict_set schema (KStr table_name) table')
    else if (List.length parts =? 1)
            && negb (String.eqb (nth 0 parts EmptyString) EmptyString) then
      table <- table_of schema table_name ;;
      cols <- getitem table "columns" ;;
      cols' <- setitem cols (nth 0 parts EmptyString) (PStr "VARCHAR(255)") ;;
      table' <- setitem table "columns" cols' ;;
      Ok (dict_set schema (KStr table_name) table')
    else Ok schema.

(** The body of the loop over the matches (lines 28-68). *)
Definition parse_statement (schema : dict) (m : rmatch) : result dict :=
  let table_name := group m 1 in
  let columns_str := group m 2 in
  let schema := dict_set schema (KStr table_name) new_table in
  let column_definitions := map strip (split_on "," columns_str) in
  for_each column_definitions schema (parse_clause table_name).

Definition parse_sql_schema (sql_statements : string) : result pyval :=
  let schema : dict := [] in
  let matches := finditer icase_dotall create_table_re sql_statements in
  schema <- for_each matches schema parse_statement ;;
  Ok (PDict schema).

(** *** [format_schema_for_prompt] *)

(** The body of the loop over the tables (lines 130-146). *)
Definition format_table (formatted : string) (entry : pykey * pyval)
    : result string :=
  let (table_name, table_info) := entry in
  let formatted := formatted ++ "Table: " ++ key_str table_name ++ nl in
  formatted <-
    match table_info with
    | PDict info =>
        formatted <-
          (if dict_mem info (KStr "columns") then
             let formatted := formatted ++ "Columns:" ++ nl in
             columns <- getitem table_info "columns" ;;
             cols <- items columns ;;
             for_each cols formatted
               (fun formatted (col : pykey * pyval) =>
                  let (col_name, col_type) := col in
                  Ok (formatted ++ "  - " ++ key_str col_name ++ ": "
                                ++ py_str col_type ++ nl))
           else Ok formatted) ;;
        formatted <-
          (if dict_mem info (KStr "primary_key") then
             pk <- getitem table_info "primary_key" ;;
             if truthy pk
             then Ok (formatted ++ "Primary Key: " ++ py_str pk ++ nl)
             else Ok formatted
           else Ok formatted) ;;
        (if dict_mem info (KStr "foreign_keys") then
           fks <- getitem table_info "foreign_keys" ;;
           if truthy fks then
             let formatted := formatted ++ "Foreign Keys:" ++ nl in
             fk_list <- iterate fks ;;
             for_each fk_list formatted
               (fun formatted fk =>
                  Ok (formatted ++ "  - " ++ py_str fk ++ nl))
           else Ok formatted
         else Ok formatted)
    | _ => Ok formatted
    end ;;
  Ok (formatted ++ nl).

Definition format_schema_for_prompt (schema : pyval) : result string :=
  let formatted := "DATABASE SCHEMA:" ++ nl ++ nl in
  match schema with
  | PDict tables => for_each tables formatted format_table
  | _ => Ok formatted
  end.

(** *** [validate_schema] *)

Definition validate_schema (schema : pyval) : bool :=
  match schema with
  | PDict d => if List.length d =? 0 then false else true
  | _ => false
  end.

(** *** [load_schema_from_file] *)

(** What the loader asks of its surroundings: [pathlib], the file
    system and the two decoders. *)
Record world : Type := World {
  path_str : string -> string;            (* str(Path(p)) *)
  path_suffix : string -> string;         (* Path(p).suffix *)
  path_exists : string -> bool;           (* Path(p).exists() *)
  read_file : string -> result string;    (* open(p, 'r') and reading it *)
  json_load : string -> result pyval;     (* json.load on the text *)
  yaml_safe_load : string -> result pyval (* yaml.safe_load on the text *)
}.
(* The [import yaml] of the YAML branch is taken to succeed. *)

(** What the loader does that can be seen from outside, in order. *)
Inductive event : Type :=
| LogInfo (msg : string)
| LogError (msg : string)
| Exists (path : string)
| Open (path : string)
| JsonLoad
| YamlLoad
| ParseSql.

(** A decode or parse step is one of these events. *)
Definition is_decode (e : event) : bool :=
  match e with
  | Open _ | JsonLoad | YamlLoad | ParseSql => true
  | _ => false
  end.

Definition traced (A : Type) : Type := (list event * result A)%type.

(** One step that leaves events and may raise, then the rest. *)
Definition step {A B : Type} (evs : list event) (r : result A)
    (k : A -> traced B) : traced B :=
  match r with
  | Ok a => let (t, b) := k a in ((evs ++ t)%list, b)
  | Raise e => (evs, Raise e)
  end.

(** The [try] block (lines 92-107). *)
Definition load_body (w : world) (file_path : string) : traced pyval :=
  let suffix := lower (path_suffix w file_path) in
  if String.eqb suffix ".json" then
    step [Open file_path] (read_file w file_path) (fun text =>
    step [JsonLoad] (json_load w text) (fun schema =>
    ([LogInfo "Schema loaded successfully"], Ok schema)))
  else if existsb (String.eqb suffix) [".yaml"; ".yml"] then
    step [Open file_path] (read_file w file_path) (fun text =>
    step [YamlLoad] (yaml_safe_load w text) (fun schema =>
    ([LogInfo "Schema loaded successfully"], Ok schema)))
  else if String.eqb suffix ".sql" then
    step [Open file_path] (read_file w file_path) (fun sql_content =>
    step [ParseSql] (parse_sql_schema sql_content) (fun schema =>
    ([LogInfo "Schema loaded successfully"], Ok schema)))
  else
    ([], Raise (Exn ValueError
                  ("Unsupported file format: " ++ path_suffix w file_path))).

Definition load_schema_from_file (w : world) (file_path : string)
    : traced pyval :=
  let start := [LogInfo ("Loading schema from file: " ++ file_path);
                Exists file_path] in
  if negb (path_exists w file_path) then
    (start, Raise (Exn FileNotFoundError
                     ("Schema file not found: " ++ path_str w file_path)))
  else
    let (t, r) := load_body w file_path in
    match r with
    | Ok schema => ((start ++ t)%list, Ok schema)
    | Raise e =>
        ((start ++ t ++ [LogError ("Error loading schema from file: "
                                     ++ exn_msg e)])%list,
         Raise e)
    end.

End Database.

(* ================================================================= *)
(** ** Vocabulary of the statements *)

Module Spec.
Import Text Re Py Database.

(** *** Shapes of text *)

(** The first character of [s] satisfies [ok]. *)
Definition head_ok (ok : ascii -> bool) (s : string) : bool :=
  match s with String c _ => ok c | EmptyString => false end.

(** The last character of [s] satisfies [ok]. *)
Fixpoint last_ok (ok : ascii -> bool) (s : string) : bool :=
  match s with
  | EmptyString => false
  | String c EmptyString => ok c
  | String _ s' => last_ok ok s'
  end.

Definition not_space (c : ascii) : bool := negb (is_space c).

(** The text [q] is the literal [p] as the flags [f] let it be written. *)
Fixpoint lit_ok (f : flags) (p q : string) : bool :=
  match p, q with
  | EmptyString, EmptyString => true
  | String a p', String b q' => atom_matches f (Chr a) b && lit_ok f p' q'
  | _, _ => false
  end.

(** An identifier: one or more characters of the class [\w]. *)
Definition is_ident (s : string) : bool :=
  negb (String.eqb s "") && all_chars is_word s.

(** A column name: an identifier that is not one of the two words a key
    clause starts with. *)
Definition column_name (s : string) : bool :=
  is_ident s && negb (String.eqb (upper s) "PRIMARY")
             && negb (String.eqb (upper s) "FOREIGN").

(** A simple column type: not empty, no comma and no semicolon in it,
    no white space at either end. *)
Definition simple_type (s : string) : bool :=
  head_ok not_space s && last_ok not_space s
    && negb (has_char "," s) && negb (has_char ";" s).

(** The statement [CREATE TABLE t (a ta, b tb, PRIMARY KEY(a));]. *)
Definition create_table_text (t a ta b tb : string) : string :=
  "CREATE TABLE " ++ t ++ " (" ++ a ++ " " ++ ta ++ ", " ++ b ++ " " ++ tb
    ++ ", PRIMARY KEY(" ++ a ++ "));".

(** The clause [FOREIGN KEY (x) REFERENCES y(z)] and its descriptor. *)
Definition fk_clause (x y z : string) : string :=
  "FOREIGN KEY (" ++ x ++ ") REFERENCES " ++ y ++ "(" ++ z ++ ")".

Definition fk_descriptor (x y z : string) : string :=
  x ++ " -> " ++ y ++ "." ++ z.

(** *** Tables *)

(** The three fields of a table's dictionary. *)
Record table_state : Type := TableState {
  t_columns : dict;
  t_primary_key : pyval;
  t_foreign_keys : list pyval
}.

(** The dictionary with exactly the keys ["columns"], ["primary_key"]
    and ["foreign_keys"], in this order. *)
Definition table_dict (st : table_state) : pyval :=
  PDict [(KStr "columns", PDict (t_columns st));
         (KStr "primary_key", t_primary_key st);
         (KStr "foreign_keys", PList (t_foreign_keys st))].

Definition is_str (v : pyval) : bool :=
  match v with PStr _ => true | _ => false end.

Definition is_str_key (k : pykey) : bool :=
  match k with KStr _ => true | _ => false end.

(** [columns] maps strings to strings, [primary_key] is [None] or a
    string, [foreign_keys] is a list of strings. *)
Definition table_state_ok (st : table_state) : Prop :=
  Forall (fun kv => is_str_key (fst kv) = true /\ is_str (snd kv) = true)
         (t_columns st)
  /\ (t_primary_key st = PNone \/ exists s, t_primary_key st = PStr s)
  /\ Forall (fun v => is_str v = true) (t_foreign_keys st).

Definition table_entry_ok (entry : pykey * pyval) : Prop :=
  is_str_key (fst entry) = true
  /\ exists st, snd entry = table_dict st /\ table_state_ok st.

(** *** Clauses, in the words of the specification *)

Definition is_primary_key_clause (s : string) : bool :=
  startswith (upper s) "PRIMARY KEY".

Definition is_foreign_key_clause (s : string) : bool :=
  startswith (upper s) "FOREIGN KEY".

(** What a clause is taken for. *)
Inductive clause_kind : Type :=
| PrimaryKey (col : option string)         (* [None]: sub-pattern failed *)
| ForeignKey (descriptor : option string)  (* [None]: sub-pattern failed *)
| Column (name type : string)
| Empty.

(** Step 4 of the algorithm: trim, then classify by prefix. *)
Definition classify (col_def : string) : clause_kind :=
  let s := strip col_def in
  if is_primary_key_clause s then
    PrimaryKey (option_map (fun m => group m 1)
                  (search icase primary_key_re s))
  else if is_foreign_key_clause s then
    ForeignKey (option_map
                  (fun m => fk_descriptor (group m 1) (group m 2) (group m 3))
                  (search icase foreign_key_re s))
  else
    match split_none_1 s with
    | [] => Empty
    | [name] => Column name "VARCHAR(255)"
    | name :: type :: _ => Column name type
    end.

Definition apply_clause (st : table_state) (k : clause_kind) : table_state :=
  match k with
  | PrimaryKey (Some col) =>
      TableState (t_columns st) (PStr col) (t_foreign_keys st)
  | ForeignKey (Some d) =>
      TableState (t_columns st) (t_primary_key st)
                 (t_foreign_keys st ++ [PStr d])
  | Column name type =>
      TableState (dict_set (t_columns st) (KStr name) (PStr type))
                 (t_primary_key st) (t_foreign_keys st)
  | _ => st
  end.

(** The column names of the [PRIMARY KEY] clauses whose sub-pattern
    matches, in the order of the clauses. *)
Definition primary_keys (defs : list string) : list string :=
  flat_map (fun c => match classify c with
                     | PrimaryKey (Some col) => [col]
                     | _ => []
                     end) defs.

(** The clauses that are neither [PRIMARY KEY] nor [FOREIGN KEY]. *)
Definition column_clauses (defs : list string) : list string :=
  filter (fun c => negb (is_primary_key_clause (strip c)
                         || is_foreign_key_clause (strip c))) defs.

(** The table after the clauses [defs], from the state [st]. *)
Definition after_clauses (st : table_state) (defs : list string)
    : table_state :=
  fold_left apply_clause (map classify defs) st.

(** *** Formatting *)

(** The lines of a text. *)
Definition lines (s : string) : list string := split_on "010" s.

Definition primary_key_line (info : dict) : string :=
  match dict_get info (KStr "primary_key") with
  | Some pk => if truthy pk then "Primary Key: " ++ py_str pk ++ nl
               else EmptyString
  | None => EmptyString
  end.

Definition foreign_keys_block (info : dict) : result string :=
  match dict_get info (KStr "foreign_keys") with
  | Some fks =>
      if truthy fks then
        fk_list <- iterate fks ;;
        Ok ("Foreign Keys:" ++ nl
              ++ String.concat ""
                   (map (fun fk => "  - " ++ py_str fk ++ nl) fk_list))
      else Ok EmptyString
  | None => Ok EmptyString
  end.

(** The schema of the formatting example. *)
Definition example_schema : pyval :=
  PDict [(KStr "t",
          PDict [(KStr "columns", PDict [(KStr "a", PStr "INT")]);
                 (KStr "primary_key", PStr "a");
                 (KStr "foreign_keys", PList [])])].

(** A schema whose ['columns'] value is a list, not a mapping. *)
Definition columns_as_list_schema : pyval :=
  PDict [(KStr "t", PDict [(KStr "columns", PList [PStr "a"])])].

(** *** A small world for the loader *)

(** The extension of a plain file name: from its last dot on, when the
    dot is neither the first nor the last character. *)
Fixpoint after_last_dot (s : string) : option string :=
  match s with
  | EmptyString => None
  | String c s' =>
      match after_last_dot s' with
      | Some e => Some e
      | None => if Ascii.eqb c "." then Some s else None
      end
  end.

Definition plain_suffix (name : string) : string :=
  match name with
  | EmptyString => EmptyString
  | String _ rest =>
      match after_last_dot rest with
      | Some (String "." EmptyString) => EmptyString
      | Some e => e
      | None => EmptyString
      end
  end.

Fixpoint file_text (files : list (string * string)) (path : string)
    : option string :=
  match files with
  | [] => None
  | (p, text) :: rest => if String.eqb p path then Some text
                         else file_text rest path
  end.

(** Files in one directory, named by plain file names; both decoders
    know the empty mapping only. *)
Definition world_of (files : list (string * string)) : world :=
  let decode (text : string) : result pyval :=
    if String.eqb text "{}" then Ok (PDict [])
    else Raise (Exn (OtherError "DecodeError") "cannot decode") in
  World (fun p => p) plain_suffix
        (fun p => match file_text files p with Some _ => true | None => false end)
        (fun p => match file_text files p with
                  | Some text => Ok text
                  | None => Raise (Exn FileNotFoundError p)
                  end)
        decode decode.

Definition supported_suffixes : list string :=
  [".json"; ".yaml"; ".yml"; ".sql"].

End Spec.

(* ================================================================= *)
(** ** [sql_generator.py] *)

Module SqlGenerator.
Import Text Py Database.

(** The arguments of [client.chat.completions.create]: the model and
    the contents of the system and of the user message. *)
Record request : Type := Request {
  req_model : string;
  req_system : string;
  req_user : string
}.

(** The client, as far as the module uses it: one call of
    [client.chat.completions.create] followed by reading
    [.choices[0].message.content] gives that content, or raises; the
    client may change with every call. *)
Record openai (C : Type) : Type := OpenAI {
  chat_content : C -> request -> C * result pyval
}.
Arguments OpenAI {C} chat_content.
Arguments chat_content {C} o c r.

Definition runtime_error (msg : string) : exn :=
  Exn (OtherError "RuntimeError") msg.

(** [content.strip()]. *)
Definition content_strip (content : pyval) : result string :=
  match content with
  | PStr s => Ok (strip s)
  | _ => Raise (Exn AttributeError
                  ("'" ++ type_name content
                       ++ "' object has no attribute 'strip'"))
  end.

(** Lines 25-27 and 75-77: the schema, formatted, when there is one
    and the validator accepts it. *)
Definition schema_context_of (schema : pyval) : result string :=
  if truthy schema && validate_schema schema then
    formatted <- format_schema_for_prompt schema ;;
    Ok (nl ++ nl ++ formatted)
  else Ok EmptyString.

Definition improve_system_message : string :=
  "You are a database-aware question rewriting assistant. Your job: "
  ++ "given a user natural language question + a brief description of the database "
  ++ "schema and several example rows from relevant tables, rewrite the user's question "
  ++ "to be unambiguous and directly grounded in the database content. Preserve intent, "
  ++ "but replace or expand vague terms with the exact table/column values or identifiers "
  ++ "found in the provided sample rows. If multiple plausible mappings exist, list them and pick the best one as the primary rewrite.".

Definition generate_system_message : string :=
  "You are a Text-to-SQL generator. Use the schema and the rewritten "
  ++ "question to produce a single valid SQL query, no explanations.".

(** Lines 38-39 and 84-85. *)
Definition with_context (system_message schema_context : string) : string :=
  if negb (String.eqb schema_context EmptyString)
  then system_message ++ schema_context
  else system_message.

(** [improve_prompt]: whatever is raised between [try] and [except]
    becomes the [RuntimeError] of line 58. *)
Definition improve_prompt {C : Type} (ai : openai C) (c : C)
    (original_prompt : string) (schema : pyval) : C * result string :=
  let failed := Raise (runtime_error "Erro ao melhorar prompt.") in
  match schema_context_of schema with
  | Raise _ => (c, failed)
  | Ok schema_context =>
      let system_message :=
        with_context improve_system_message schema_context in
      let (c', response) :=
        chat_content ai c (Request "gpt-4.1" system_message original_prompt) in
      match content <- response ;; content_strip content with
      | Ok improved => (c', Ok improved)
      | Raise _ => (c', failed)
      end
  end.

(** [generate_sql_from_prompt]. *)
Definition generate_sql_from_prompt {C : Type} (ai : openai C) (c : C)
    (prompt : string) (schema : pyval) : C * result string :=
  let failed := Raise (runtime_error "Erro ao gerar SQL.") in
  match schema_context_of schema with
  | Raise _ => (c, failed)
  | Ok schema_context =>
      let system_message :=
        with_context generate_system_message schema_context in
      let (c', response) :=
        chat_content ai c (Request "gpt-4.1" system_message prompt) in
      match content <- response ;; content_strip content with
      | Ok sql_code => (c', Ok sql_code)
      | Raise _ => (c', failed)
      end
  end.

(** [pipeline_generate_sql].  [schema_file_path] is [None] or a text;
    the request identifier goes to the log only and is left out. *)
Definition pipeline_generate_sql {C : Type} (w : world) (ai : openai C)
    (c : C) (original_prompt : string) (schema : pyval)
    (schema_file_path : option string) : C * result string :=
  let loaded :=
    match schema_file_path with
    | Some path =>
        if negb (String.eqb path EmptyString)
        then snd (load_schema_from_file w path)
        else Ok schema
    | None => Ok schema
    end in
  match loaded with
  | Raise e => (c, Raise e)
  | Ok schema =>
      let (c1, improved) := improve_prompt ai c original_prompt schema in
      match improved with
      | Raise e => (c1, Raise e)
      | Ok improved_prompt =>
          generate_sql_from_prompt ai c1 improved_prompt schema
      end
  end.

End SqlGenerator.

(* ================================================================= *)
(** ** [endpoints/sql_generator.py] *)

Module Endpoints.
Import Text Py.

(** [PromptPayload]. *)
Record prompt_payload : Type := PromptPayload {
  pp_prompt : string;
  pp_schema : string;
  pp_db_content : option string
}.

(** [PromptPayloadWithFile]. *)
Record prompt_payload_with_file : Type := PromptPayloadWithFile {
  pf_prompt : string;
  pf_schema_file_path : string
}.

(** The two functions of [experiments.question_rewriting] the routes
    call; the module is not part of the sources read here. *)
Record rewriting : Type := Rewriting {
  generate_sql_with_rewriting : string -> string -> string -> result pyval;
  load_schema_and_content_from_file : string -> result (string * string)
}.

(** [payload.db_content or ""]. *)
Definition or_empty (s : option string) : string :=
  match s with
  | Some t => t
  | None => EmptyString
  end.

(** The answer of a route: what the [try] block returns, or the error
    of the [except] clause. *)
Definition answer (r : result pyval) : result pyval :=
  match r with
  | Ok v => Ok v
  | Raise e => Ok (PDict [(KStr "error", PStr (exn_msg e))])
  end.

Definition generate_sql (rw : rewriting) (payload : prompt_payload)
    : result pyval :=
  answer
    (let db_schema := strip (pp_schema payload) in
     let db_content := or_empty (pp_db_content payload) in
     res <- generate_sql_with_rewriting rw (pp_prompt payload)
              db_schema db_content ;;
     sql <- getitem res "generated_sql" ;;
     Ok (PDict [(KStr "SQL", sql)])).

Definition generate_sql_with_file (rw : rewriting)
    (payload : prompt_payload_with_file) : result pyval :=
  answer
    (loaded <- load_schema_and_content_from_file rw
                 (pf_schema_file_path payload) ;;
     let (db_schema, db_content) := (loaded : string * string) in
     res <- generate_sql_with_rewriting rw (pf_prompt payload)
              db_schema db_content ;;
     sql <- getitem res "generated_sql" ;;
     Ok (PDict [(KStr "SQL", sql)])).

End Endpoints.

(* ================================================================= *)
(** ** Further vocabulary *)

Module Coverage.
Import Text Re Py Database Spec.

(** The table a statement's body gives, from the empty table. *)
Definition table_of_body (body : string) : pyval :=
  table_dict (after_clauses (TableState [] PNone [])
                (map strip (split_on "," body))).

Definition table_name_of (m : rmatch) : string := group m 1.

Definition entry_of (m : rmatch) : pykey * pyval :=
  (KStr (group m 1), table_of_body (group m 2)).

(** The statements found in a text. *)
Definition statements (sql_statements : string) : list rmatch :=
  finditer icase_dotall create_table_re sql_statements.

(** A statement with the key words in any letter case and any white
    space between its parts. *)
Definition statement_text (cr w1 tb w2 t w3 body : string) : string :=
  cr ++ w1 ++ tb ++ w2 ++ t ++ w3 ++ "(" ++ body ++ ");".

(** The name and type a clause records as a column, if it does. *)
Definition column_of (col_def : string) : option (string * string) :=
  match classify col_def with
  | Column name type => Some (name, type)
  | _ => None
  end.

(** A value a [for] loop accepts. *)
Definition iterable (v : pyval) : bool :=
  match v with
  | PList _ | PDict _ | PStr _ => true
  | _ => false
  end.

(** A table entry the formatter gets through: not a dictionary, or a
    dictionary whose ['columns'], if there, is a dictionary and whose
    ['foreign_keys'], if there and true, can be iterated. *)
Definition formattable (table_info : pyval) : bool :=
  match table_info with
  | PDict info =>
      match dict_get info (KStr "columns") with
      | Some (PDict _) | None => true
      | Some _ => false
      end
      && match dict_get info (KStr "foreign_keys") with
         | Some fks => negb (truthy fks) || iterable fks
         | None => true
         end
  | _ => true
  end.

(** The decoder the loader uses for an extension, if it has one. *)
Definition decoder_for (w : world) (suffix : string)
    : option (string -> result pyval) :=
  if String.eqb suffix ".json" then Some (json_load w)
  else if existsb (String.eqb suffix) [".yaml"; ".yml"]
       then Some (yaml_safe_load w)
  else if String.eqb suffix ".sql" then Some parse_sql_schema
  else None.

Definition is_log_error (e : event) : bool :=
  match e with LogError _ => true | _ => false end.

(** What a statement does to the schema. *)
Definition add_entry (schema : dict) (m : rmatch) : dict :=
  dict_set schema (fst (entry_of m)) (snd (entry_of m)).

(** The columns the clauses record, in the order of the clauses. *)
Fixpoint columns_of (defs : list string) : list (string * string) :=
  match defs with
  | [] => []
  | c :: rest =>
      match column_of c with
      | Some e => e :: columns_of rest
      | None => columns_of rest
      end
  end.

(** The text of the columns of a table, when ['columns'] is there. *)
Definition columns_block (info : dict) : result string :=
  match dict_get info (KStr "columns") with
  | Some columns =>
      cols <- items columns ;;
      Ok ("Columns:" ++ nl
            ++ String.concat ""
                 (map (fun col : pykey * pyval =>
                         "  - " ++ key_str (fst col) ++ ": "
                                ++ py_str (snd col) ++ nl) cols))
  | None => Ok EmptyString
  end.

(** What the formatter adds for a table entry, after its [Table:]
    line and before the empty line that ends it. *)
Definition table_body (table_info : pyval) : result string :=
  match table_info with
  | PDict info =>
      c <- columns_block info ;;
      f <- foreign_keys_block info ;;
      Ok (c ++ primary_key_line info ++ f)
  | _ => Ok EmptyString
  end.

Definition table_text (entry : pykey * pyval) : result string :=
  b <- table_body (snd entry) ;;
  Ok ("Table: " ++ key_str (fst entry) ++ nl ++ b ++ nl).

(** The texts of the tables of a schema, one after the other; the
    first table that cannot be formatted decides the exception. *)
Fixpoint tables_text (tables : list (pykey * pyval)) : result string :=
  match tables with
  | [] => Ok EmptyString
  | entry :: rest =>
      t <- table_text entry ;;
      r <- tables_text rest ;;
      Ok (t ++ r)
  end.

Definition schema_formattable (schema : pyval) : bool :=
  match schema with
  | PDict tables => forallb formattable (map snd tables)
  | _ => true
  end.

Definition header : string := "DATABASE SCHEMA:" ++ nl ++ nl.

Definition attribute_or_type_error (e : exn) : Prop :=
  exn_cls e = AttributeError \/ exn_cls e = TypeError.

(** The texts a pattern matches a beginning of all have [);] in them. *)
Definition needs_terminator (f : flags) (r : regex) : Prop :=
  forall s pos marks o,
    match_here f r s pos marks = Some o -> contains s ");" = true.

(** The statement [CREATE TABLE t (body);]. *)
Definition plain_statement (t body : string) : string :=
  "CREATE TABLE " ++ t ++ " (" ++ body ++ ");".

(** A clause that can stand between the commas of a body. *)
Definition clause_plain (c : string) : bool :=
  negb (has_char "," c) && negb (has_char ";" c).

Definition empty_table : table_state := TableState [] PNone [].

(** The descriptors of the [FOREIGN KEY] clauses whose sub-pattern
    matches, in the order of the clauses. *)
Definition foreign_keys_of (defs : list string) : list pyval :=
  flat_map (fun c => match classify c with
                     | ForeignKey (Some d) => [PStr d]
                     | _ => []
                     end) defs.

(** The dictionary that holds the given columns, set one after the
    other. *)
Definition columns_dict (l : list (string * string)) : dict :=
  fold_left (fun d e => dict_set d (KStr (fst e)) (PStr (snd e))) l [].

(** The clauses of a body, by what they are for [foreign_keys]. *)
Inductive fk_item : Type :=
| FkGood (l x y z r : string)   (* [FOREIGN KEY (x) REFERENCES y(z)] in white space *)
| FkFailed (c : string)         (* starts with [FOREIGN KEY], sub-pattern fails *)
| NotFk (c : string).           (* does not start with [FOREIGN KEY] *)

Definition fk_item_text (i : fk_item) : string :=
  match i with
  | FkGood l x y z r => l ++ fk_clause x y z ++ r
  | FkFailed c | NotFk c => c
  end.

Definition fk_item_ok (i : fk_item) : bool :=
  match i with
  | FkGood l x y z r =>
      all_chars is_space l && all_chars is_space r
        && is_ident x && is_ident y && is_ident z
  | FkFailed c =>
      clause_plain c && is_foreign_key_clause (strip c)
        && match search icase foreign_key_re (strip c) with
           | None => true
           | Some _ => false
           end
  | NotFk c => clause_plain c && negb (is_foreign_key_clause (strip c))
  end.

Definition fk_item_descriptors (i : fk_item) : list pyval :=
  match i with
  | FkGood _ x y z _ => [PStr (fk_descriptor x y z)]
  | _ => []
  end.

Definition is_not_fk (i : fk_item) : bool :=
  match i with NotFk _ => true | _ => false end.

(** The clauses of a body, by what they are made of. *)
Inductive column_item : Type :=
| KeyClause (c : string)                (* starts with [PRIMARY KEY] or [FOREIGN KEY] *)
| BlankClause (c : string)              (* white space only, or nothing *)
| OneWord (l name r : string)           (* one word in white space *)
| NameType (l name ws type r : string). (* a word, white space, more text *)

Definition column_item_text (i : column_item) : string :=
  match i with
  | KeyClause c | BlankClause c => c
  | OneWord l name r => l ++ name ++ r
  | NameType l name ws type r => l ++ (name ++ ws ++ type) ++ r
  end.

Definition is_word_text (name : string) : bool :=
  negb (String.eqb name "") && all_chars not_space name.

Definition column_item_ok (i : column_item) : bool :=
  match i with
  | KeyClause c =>
      clause_plain c
        && (is_primary_key_clause (strip c) || is_foreign_key_clause (strip c))
  | BlankClause c => all_chars is_space c
  | OneWord l name r =>
      all_chars is_space l && all_chars is_space r
        && is_word_text name && clause_plain name
  | NameType l name ws type r =>
      all_chars is_space l && all_chars is_space r
        && is_word_text name && clause_plain name
        && negb (String.eqb ws "") && all_chars is_space ws
        && head_ok not_space type && last_ok not_space type
        && clause_plain type
        && negb (is_primary_key_clause (name ++ ws ++ type)
                 || is_foreign_key_clause (name ++ ws ++ type))
  end.

(** What a clause adds to [columns]. *)
Definition column_item_columns (i : column_item) : list (string * string) :=
  match i with
  | OneWord _ name _ => [(name, "VARCHAR(255)")]
  | NameType _ name _ type _ => [(name, type)]
  | _ => []
  end.

(** A client that answers every request with the same content and
    counts the calls. *)
Definition constant_client (content : pyval) : SqlGenerator.openai nat :=
  SqlGenerator.OpenAI (fun n _ => (S n, Ok content)).

(** A client that answers with the user message it was sent, inside
    white space, and keeps the requests it got, the last one first. *)
Definition echo_client : SqlGenerator.openai (list SqlGenerator.request) :=
  SqlGenerator.OpenAI
    (fun log r => (r :: log,
                   Ok (PStr ("  " ++ SqlGenerator.req_user r ++ " ")))).

End Coverage.

Module G := SqlGenerator.
Module E := Endpoints.

Import Text Re Py Database Spec Coverage.

(* ================================================================= *)
(** ** Facts about text *)

Ltac each_char c := destruct c as [[] [] [] [] [] [] [] []].

Lemma app_assoc_s (a b c : string) : (a ++ b) ++ c = a ++ b ++ c.
Proof. induction a as [|x a IH]; simpl; [reflexivity | now rewrite IH]. Qed.

Lemma app_nil_r_s (a : string) : a ++ "" = a.
Proof. induction a as [|x a IH]; simpl; [reflexivity | now rewrite IH]. Qed.

Lemma length_app_s (a b : string) :
  String.length (a ++ b) = String.length a + String.length b.
Proof. induction a as [|x a IH]; simpl; [reflexivity | now rewrite IH]. Qed.

Lemma substring_0_app (x post : string) :
  substring 0 (String.length x) (x ++ post) = x.
Proof.
  induction x as [|c x IH]; simpl.
  - destruct post; reflexivity.
  - now rewrite IH.
Qed.

Lemma substring_skip (pre s : string) (k n : nat) :
  substring (String.length pre + k) n (pre ++ s) = substring k n s.
Proof. induction pre as [|c pre IH]; simpl; [reflexivity | exact IH]. Qed.

(** A slice that starts after [pre] and is as long as [x] is [x]. *)
Lemma slice_mid (pre x post : string) (i j : nat) :
  i = String.length pre -> j = i + String.length x ->
  slice (pre ++ x ++ post) i j = x.
Proof.
  intros -> ->. unfold slice.
  replace (String.length pre + String.length x - String.length pre)
    with (String.length x) by lia.
  rewrite <- (Nat.add_0_r (String.length pre)) at 1.
  rewrite substring_skip. apply substring_0_app.
Qed.

Lemma word_not_space c : is_word c = true -> is_space c = false.
Proof. each_char c; vm_compute; congruence. Qed.

Lemma upper_word_not_space c :
  is_word c = true -> is_space (upper_char c) = false.
Proof. each_char c; vm_compute; congruence. Qed.

Lemma chr_paren_close f c : atom_matches f (Chr ")") c = Ascii.eqb c ")".
Proof. destruct f as [[] []]; each_char c; reflexivity. Qed.

Lemma chr_semicolon f c : atom_matches f (Chr ";") c = Ascii.eqb c ";".
Proof. destruct f as [[] []]; each_char c; reflexivity. Qed.

Lemma is_ident_inv s :
  is_ident s = true -> s <> "" /\ all_chars is_word s = true.
Proof.
  unfold is_ident. intros H. apply andb_prop in H as [H1 H2]. split; auto.
  intros ->. discriminate.
Qed.

Lemma has_char_app c x y : has_char c (x ++ y) = has_char c x || has_char c y.
Proof.
  induction x as [|a x IH]; simpl; [reflexivity|].
  now rewrite IH, orb_assoc.
Qed.

Lemma word_has_no c w :
  is_word c = false -> all_chars is_word w = true -> has_char c w = false.
Proof.
  intros Hc. induction w as [|a w IH]; simpl; [reflexivity|].
  intros H. apply andb_prop in H as [Ha Hw]. rewrite (IH Hw), orb_false_r.
  apply Ascii.eqb_neq. intros ->. congruence.
Qed.

Lemma head_ok_app ok x s :
  x <> "" -> head_ok ok (x ++ s) = head_ok ok x.
Proof. destruct x; [congruence | reflexivity]. Qed.

Lemma last_ok_app ok x c :
  last_ok ok (x ++ String c "") = ok c.
Proof.
  induction x as [|a x IH]; simpl; [reflexivity|].
  rewrite IH. destruct (x ++ String c "") eqn:E; [|reflexivity].
  destruct x; discriminate.
Qed.

Lemma last_ok_app_r ok x y :
  y <> "" -> last_ok ok (x ++ y) = last_ok ok y.
Proof.
  intros Hy. induction x as [|a x IH]; simpl; [reflexivity|].
  rewrite IH. destruct (x ++ y) eqn:E; [|reflexivity].
  destruct x; simpl in E; [congruence | discriminate].
Qed.

(** *** [strip] *)

Lemma lstrip_head s c s' : lstrip s = String c s' -> is_space c = false.
Proof.
  induction s as [|a s IH]; simpl; [discriminate|].
  destruct (is_space a) eqn:E; auto. intros H. now inversion H; subst.
Qed.

Lemma lstrip_fixed s : head_ok is_space s = false -> lstrip s = s.
Proof. destruct s as [|c s]; simpl; [reflexivity | now intros ->]. Qed.

Lemma rstrip_fixed s : last_ok not_space s = true -> rstrip s = s.
Proof.
  induction s as [|c s IH]; simpl; [discriminate|].
  destruct s as [|d s].
  - unfold not_space. simpl. now destruct (is_space c).
  - intros H. rewrite (IH H). reflexivity.
Qed.

Lemma strip_fixed s :
  head_ok is_space s = false -> last_ok not_space s = true -> strip s = s.
Proof. intros H1 H2. unfold strip. now rewrite (lstrip_fixed _ H1), rstrip_fixed. Qed.

(** *** [split] *)

Lemma split_on_none sep x : has_char sep x = false -> split_on sep x = [x].
Proof.
  induction x as [|c x IH]; simpl; [reflexivity|].
  intros H. apply orb_false_elim in H as [Hc Hx].
  now rewrite Hc, (IH Hx).
Qed.

Lemma split_on_cut sep x s :
  has_char sep x = false ->
  split_on sep (x ++ String sep s) = x :: split_on sep s.
Proof.
  induction x as [|c x IH]; simpl.
  - now rewrite Ascii.eqb_refl.
  - intros H. apply orb_false_elim in H as [Hc Hx].
    now rewrite Hc, (IH Hx).
Qed.

Lemma take_word_head c s : is_space c = false ->
  exists w r, take_word (String c s) = (String c w, r).
Proof.
  intros H. simpl. rewrite H. destruct (take_word s) as [w r]. eauto.
Qed.

Lemma take_word_app w s :
  all_chars not_space w = true -> head_ok not_space s = false ->
  take_word (w ++ s) = (w, s).
Proof.
  induction w as [|c w IH]; simpl; intros Hw Hs.
  - destruct s as [|d s]; [reflexivity|]. simpl in *.
    unfold not_space in Hs. apply negb_false_iff in Hs. now rewrite Hs.
  - apply andb_prop in Hw as [Hc Hw]. unfold not_space in Hc.
    apply negb_true_iff in Hc. now rewrite Hc, (IH Hw Hs).
Qed.

Lemma lstrip_spaces ws s :
  all_chars is_space ws = true -> lstrip (ws ++ s) = lstrip s.
Proof.
  induction ws as [|c ws IH]; simpl; [reflexivity|].
  intros H. apply andb_prop in H as [Hc Hw]. now rewrite Hc, IH.
Qed.

(** [split(None, 1)] gives no piece, one piece that is not empty, or
    two pieces. *)
Lemma split_none_1_cases s :
  split_none_1 s = [] \/
  (exists w, split_none_1 s = [w] /\ w <> "") \/
  (exists w r, split_none_1 s = [w; r]).
Proof.
  unfold split_none_1. destruct (lstrip s) as [|c s1] eqn:E; auto.
  right. destruct (take_word_head c s1 (lstrip_head _ _ _ E)) as (w & r & ->).
  destruct (lstrip r); [left | right]; eauto.
  eexists. split; eauto. discriminate.
Qed.

Lemma split_none_1_fixed s :
  s <> "" -> head_ok is_space s = false ->
  split_none_1 s
  = let (w, r) := take_word s in
    match lstrip r with
    | EmptyString => [w]
    | r1 => [w; r1]
    end.
Proof.
  intros Hs Hh. unfold split_none_1. rewrite (lstrip_fixed _ Hh).
  destruct s; [congruence | reflexivity].
Qed.

Lemma word_head_not_space w :
  w <> "" -> all_chars not_space w = true -> head_ok is_space w = false.
Proof.
  destruct w as [|c w]; [congruence|]. simpl. intros _ H.
  apply andb_prop in H as [Hc _]. now apply negb_true_iff in Hc.
Qed.

Lemma split_none_1_word w :
  w <> "" -> all_chars not_space w = true -> split_none_1 w = [w].
Proof.
  intros Hw Hn.
  rewrite split_none_1_fixed by auto using word_head_not_space.
  rewrite <- (app_nil_r_s w) at 1. now rewrite take_word_app.
Qed.

Lemma split_none_1_two w ws r :
  w <> "" -> all_chars not_space w = true ->
  ws <> "" -> all_chars is_space ws = true ->
  head_ok not_space r = true ->
  split_none_1 (w ++ ws ++ r) = [w; r].
Proof.
  intros Hw Hn Hws Hs Hr.
  assert (Hhs : head_ok not_space (ws ++ r) = false).
  { destruct ws as [|c ws]; [congruence|]. simpl in *.
    apply andb_prop in Hs as [Hc _]. unfold not_space. now rewrite Hc. }
  assert (Hr' : head_ok is_space r = false /\ r <> "").
  { destruct r as [|c r]; [discriminate|]. simpl in *. split; [|discriminate].
    now apply negb_true_iff in Hr. }
  rewrite split_none_1_fixed.
  - rewrite take_word_app, lstrip_spaces, lstrip_fixed by tauto.
    destruct r; [tauto | reflexivity].
  - destruct w; [congruence | discriminate].
  - rewrite head_ok_app by assumption. now apply word_head_not_space.
Qed.

(* ================================================================= *)
(** ** Facts about the matcher *)

(** The three patterns are what the source writes. *)
Lemma create_table_pattern_read :
  Re.parse create_table_pattern = Some create_table_re.
Proof. reflexivity. Qed.

Lemma primary_key_pattern_read :
  Re.parse primary_key_pattern = Some primary_key_re.
Proof. reflexivity. Qed.

Lemma foreign_key_pattern_read :
  Re.parse foreign_key_pattern = Some foreign_key_re.
Proof. reflexivity. Qed.

Section Engine.
Variable f : flags.

(** A greedy repetition that can take all of [w], and no more, and
    after which the rest of the pattern matches, takes all of [w]. *)
Lemma greedy_max ok k : forall w s pos o,
  all_chars ok w = true -> head_ok ok s = false ->
  k s (pos + String.length w) = Some o ->
  greedy ok k (w ++ s) pos = Some o.
Proof.
  induction w as [|c w IH]; simpl; intros s pos o Hw Hs Hk.
  - rewrite Nat.add_0_r in Hk.
    destruct s as [|c s]; simpl in *; [exact Hk | now rewrite Hs].
  - apply andb_prop in Hw as [Hc Hw]. rewrite Hc.
    rewrite (IH s (S pos) o); auto.
    now rewrite <- Hk, Nat.add_succ_comm.
Qed.

Lemma match_plus_max a r w s pos marks o :
  w <> EmptyString -> all_chars (atom_matches f a) w = true ->
  head_ok (atom_matches f a) s = false ->
  match_here f r s (pos + String.length w) marks = Some o ->
  match_here f (Rep Plus a :: r) (w ++ s) pos marks = Some o.
Proof.
  destruct w as [|c w]; [congruence|]. intros _ Hw Hs Hk. simpl in *.
  apply andb_prop in Hw as [Hc Hw]. rewrite Hc.
  apply greedy_max; auto. now rewrite Nat.add_succ_comm.
Qed.

Lemma match_star_max a r w s pos marks o :
  all_chars (atom_matches f a) w = true ->
  head_ok (atom_matches f a) s = false ->
  match_here f r s (pos + String.length w) marks = Some o ->
  match_here f (Rep Star a :: r) (w ++ s) pos marks = Some o.
Proof. intros. simpl. now apply greedy_max. Qed.

Lemma match_lit_cons c r x s pos marks :
  atom_matches f (Chr c) x = true ->
  match_here f (Rep Once (Chr c) :: r) (String x s) pos marks
  = match_here f r s (S pos) marks.
Proof. intros H. simpl in *. now rewrite H. Qed.

Lemma match_lit p : forall q r s pos marks,
  lit_ok f p q = true ->
  match_here f (lit p ++ r)%list (q ++ s) pos marks
  = match_here f r s (pos + String.length p) marks.
Proof.
  induction p as [|a p IH]; intros [|b q] r s pos marks H; simpl in H;
    try discriminate.
  - simpl. now rewrite Nat.add_0_r.
  - apply andb_prop in H as [Hab Hq].
    change (lit (String a p) ++ r)%list
      with (Rep Once (Chr a) :: (lit p ++ r))%list.
    change (String b q ++ s) with (String b (q ++ s)).
    rewrite match_lit_cons by exact Hab.
    rewrite IH by exact Hq. simpl. f_equal. lia.
Qed.

Lemma match_lit_end p q s pos marks :
  lit_ok f p q = true ->
  match_here f (lit p) (q ++ s) pos marks
  = Some (pos + String.length p, marks).
Proof.
  intros H. rewrite <- (app_nil_r (lit p)). now rewrite match_lit.
Qed.

Lemma match_group_open r s pos marks :
  match_here f (GroupOpen :: r) s pos marks
  = match_here f r s pos (marks ++ [pos]).
Proof. reflexivity. Qed.

Lemma match_group_close r s pos marks :
  match_here f (GroupClose :: r) s pos marks
  = match_here f r s pos (marks ++ [pos]).
Proof. reflexivity. Qed.

Lemma head_space_ident w s :
  w <> "" -> all_chars is_word w = true ->
  head_ok (atom_matches f Space) (w ++ s) = false.
Proof.
  destruct w as [|c w]; [congruence|]. intros _ H. simpl in *.
  apply andb_prop in H as [H _]. now apply word_not_space.
Qed.

(** A match at the start of the subject is what [search] returns. *)
Lemma search_at_start r subject o :
  match_here f r subject 0 [] = Some o ->
  search f r subject = Some (mk_match subject 0 o).
Proof.
  intros H. unfold search. destruct subject; simpl; now rewrite H.
Qed.

(** While the characters of the last match are passed, nothing is
    looked for. *)
Lemma finditer_skip r subject : forall s pos,
  finditer_from f r subject s pos (String.length s)
  = finditer_from f r subject "" (pos + String.length s) 0.
Proof.
  induction s as [|c s IH]; intros pos; simpl String.length.
  - now rewrite Nat.add_0_r.
  - cbn [finditer_from]. rewrite IH. now rewrite Nat.add_succ_comm.
Qed.

End Engine.

(** The lazy [.*?] before [);] stops at the first [);]; a text with no
    semicolon has none. *)
Lemma head_semicolon body rest :
  has_char ";" body = false ->
  head_ok (fun c => Ascii.eqb c ";") (body ++ ");" ++ rest) = false.
Proof.
  destruct body as [|c body]; simpl; [reflexivity|].
  intros H. now apply orb_false_elim in H as [H _].
Qed.

Lemma terminator_fails c body rest pos marks :
  has_char ";" body = false ->
  match_here icase_dotall (lit ");") (String c (body ++ ");" ++ rest))
    pos marks = None.
Proof.
  intros Hb. cbn [match_here lit map list_ascii_of_string].
  rewrite chr_paren_close. destruct (Ascii.eqb c ")"); [|reflexivity].
  pose proof (head_semicolon body rest Hb) as Hh.
  destruct (body ++ ");" ++ rest) as [|d t]; [reflexivity|].
  simpl in Hh. rewrite chr_semicolon, Hh. reflexivity.
Qed.

Lemma match_lazy_body : forall body rest pos marks,
  has_char ";" body = false ->
  match_here icase_dotall
    (Rep LazyStar Dot :: GroupClose :: lit ");") (body ++ ");" ++ rest)
    pos marks
  = Some (pos + String.length body + 2,
          (marks ++ [pos + String.length body])%list).
Proof.
  induction body as [|c body IH]; intros rest pos marks H.
  - simpl. now rewrite !Nat.add_0_r, Nat.add_comm.
  - simpl in H. apply orb_false_elim in H as [Hc Hb].
    specialize (IH rest (S pos) marks Hb).
    cbn [match_here] in IH |- *.
    change (String c body ++ ");" ++ rest)
      with (String c (body ++ ");" ++ rest)).
    cbn [lazy]. rewrite terminator_fails by exact Hb.
    change (atom_matches icase_dotall Dot c) with true. cbv iota.
    rewrite IH. simpl String.length.
    now rewrite !Nat.add_succ_r.
Qed.

(** *** Matches take text *)

Lemma greedy_end ok k :
  (forall t p o, k t p = Some o -> p <= fst o) ->
  forall s pos o, greedy ok k s pos = Some o -> pos <= fst o.
Proof.
  intros Hk. induction s as [|c s IH]; simpl; intros pos o H.
  - eauto.
  - destruct (ok c); [|eauto].
    destruct (greedy ok k s (S pos)) as [r|] eqn:E.
    + inversion H; subst. apply IH in E. lia.
    + eauto.
Qed.

Lemma lazy_end ok k :
  (forall t p o, k t p = Some o -> p <= fst o) ->
  forall s pos o, lazy ok k s pos = Some o -> pos <= fst o.
Proof.
  intros Hk. induction s as [|c s IH]; simpl; intros pos o H.
  - destruct (k "" pos) eqn:E; [|discriminate]. inversion H; subst. eauto.
  - destruct (k (String c s) pos) eqn:E.
    + inversion H; subst. eauto.
    + destruct (ok c); [|discriminate]. apply IH in H. lia.
Qed.

(** A match never ends before the position it starts at. *)
Lemma match_here_end f : forall r s pos marks o,
  match_here f r s pos marks = Some o -> pos <= fst o.
Proof.
  induction r as [|n r IH]; intros s pos marks o H.
  - inversion H. simpl. lia.
  - destruct n as [[| | |] a| |]; cbn [match_here] in H.
    + destruct s as [|c s]; [discriminate|].
      destruct (atom_matches f a c); [|discriminate].
      apply IH in H. lia.
    + destruct s as [|c s]; [discriminate|].
      destruct (atom_matches f a c); [|discriminate].
      apply greedy_end in H; [lia|]. intros t p o'. apply IH.
    + apply greedy_end in H; [lia|]. intros t p o'. apply IH.
    + apply lazy_end in H; [lia|]. intros t p o'. apply IH.
    + eauto.
    + eauto.
Qed.

Lemma match_once_takes_text f a r s pos marks o :
  match_here f (Rep Once a :: r) s pos marks = Some o -> pos < fst o.
Proof.
  cbn [match_here]. destruct s as [|c s]; [discriminate|].
  destruct (atom_matches f a c); [|discriminate].
  intros H. apply match_here_end in H. lia.
Qed.

(** The statement pattern matches no empty text: [finditer] never has
    to step over an empty match. *)
Lemma create_table_match_takes_text s pos marks o :
  match_here icase_dotall create_table_re s pos marks = Some o ->
  pos < fst o.
Proof. apply match_once_takes_text. Qed.

(* ================================================================= *)
(** ** Facts about dictionaries *)

Lemma dict_get_set_same d k v :
  dict_get (dict_set d (KStr k) v) (KStr k) = Some v.
Proof.
  induction d as [|[k' v'] d IH]; simpl.
  - now rewrite String.eqb_refl.
  - destruct (key_eqb k' (KStr k)) eqn:E; simpl; rewrite E; auto.
Qed.

Lemma dict_set_set d k v v' :
  dict_set (dict_set d (KStr k) v) (KStr k) v' = dict_set d (KStr k) v'.
Proof.
  induction d as [|[k' x] d IH]; simpl.
  - now rewrite String.eqb_refl.
  - destruct (key_eqb k' (KStr k)) eqn:E; simpl; rewrite E; auto.
    now rewrite IH.
Qed.

Lemma dict_set_same d k v :
  dict_get d k = Some v -> dict_set d k v = d.
Proof.
  induction d as [|[k' x] d IH]; simpl; [discriminate|].
  destruct (key_eqb k' k); intros H.
  - now inversion H.
  - now rewrite IH.
Qed.

Lemma key_eqb_str k s : key_eqb k (KStr s) = true -> is_str_key k = true.
Proof. destruct k; simpl; congruence. Qed.

(** Setting a string key to a good value keeps a dictionary good. *)
Lemma Forall_dict_set (P : pyval -> Prop) d k v :
  Forall (fun kv => is_str_key (fst kv) = true /\ P (snd kv)) d ->
  P v ->
  Forall (fun kv => is_str_key (fst kv) = true /\ P (snd kv))
         (dict_set d (KStr k) v).
Proof.
  intros Hd Hv. induction Hd as [|[k' x] d [Hk Hx] Hd IH]; simpl.
  - constructor; [split; auto | constructor].
  - destruct (key_eqb k' (KStr k)); constructor; auto.
Qed.

(* ================================================================= *)
(** ** The loop over the clauses *)

Lemma table_of_state schema tn st :
  dict_get schema (KStr tn) = Some (table_dict st) ->
  table_of schema tn = Ok (table_dict st).
Proof. intros H. unfold table_of, getitem. now rewrite H. Qed.

Lemma new_table_state : new_table = table_dict (TableState [] PNone []).
Proof. reflexivity. Qed.

Lemma fk_not_pk s :
  is_foreign_key_clause s = true -> is_primary_key_clause s = false.
Proof.
  unfold is_foreign_key_clause, is_primary_key_clause.
  destruct s as [|c s]; simpl; [discriminate|].
  destruct (Ascii.eqb (upper_char c) "F") eqn:E; [|discriminate].
  apply Ascii.eqb_eq in E. rewrite E. reflexivity.
Qed.

(** The loop body does to the table what the classification of the
    clause says, and raises nothing. *)
Lemma parse_clause_classify tn schema st c :
  dict_get schema (KStr tn) = Some (table_dict st) ->
  parse_clause tn schema c
  = Ok (dict_set schema (KStr tn) (table_dict (apply_clause st (classify c)))).
Proof.
  intros H. pose proof (table_of_state _ _ _ H) as Ht.
  unfold parse_clause, classify, is_primary_key_clause, is_foreign_key_clause.
  destruct (startswith (upper (strip c)) "PRIMARY KEY").
  { destruct (search icase primary_key_re (strip c)) as [m|]; simpl.
    - rewrite Ht. reflexivity.
    - now rewrite dict_set_same. }
  destruct (startswith (upper (strip c)) "FOREIGN KEY").
  { destruct (search icase foreign_key_re (strip c)) as [m|]; simpl.
    - rewrite Ht. reflexivity.
    - now rewrite dict_set_same. }
  destruct (split_none_1_cases (strip c)) as [E | [(w & E & Hw) | (w & r & E)]];
    rewrite E; simpl.
  - now rewrite dict_set_same.
  - apply String.eqb_neq in Hw. rewrite Hw. simpl. rewrite Ht. reflexivity.
  - rewrite Ht. reflexivity.
Qed.

(** The whole loop: the clauses are applied from left to right. *)
Lemma parse_clauses_fold tn : forall defs schema st,
  dict_get schema (KStr tn) = Some (table_dict st) ->
  for_each defs schema (parse_clause tn)
  = Ok (dict_set schema (KStr tn) (table_dict (after_clauses st defs))).
Proof.
  induction defs as [|c defs IH]; intros schema st H; simpl.
  - unfold after_clauses. simpl. now rewrite dict_set_same.
  - rewrite (parse_clause_classify _ _ _ _ H). simpl.
    rewrite (IH _ (apply_clause st (classify c))) by apply dict_get_set_same.
    now rewrite dict_set_set.
Qed.

Lemma apply_clause_ok st k : table_state_ok st -> table_state_ok (apply_clause st k).
Proof.
  intros (Hc & Hp & Hf). destruct k as [[col|] | [d|] | name type | ]; simpl;
    repeat split; simpl; auto.
  - right. eauto.
  - apply Forall_app. split; auto.
  - apply (Forall_dict_set (fun v => is_str v = true)); auto.
Qed.

Lemma after_clauses_ok defs : forall st,
  table_state_ok st -> table_state_ok (after_clauses st defs).
Proof.
  unfold after_clauses.
  induction defs as [|c defs IH]; intros st H; simpl; auto.
  apply IH. now apply apply_clause_ok.
Qed.

(** White space at the ends of a clause is removed once; removing it
    again changes nothing. *)
Lemma rstrip_last s c s' : rstrip s = String c s' -> last_ok not_space (rstrip s) = true.
Proof.
  revert c s'. induction s as [|a s IH]; simpl; [discriminate|].
  intros c s'. destruct (rstrip s) as [|d r] eqn:E.
  - destruct (is_space a) eqn:Ea; [discriminate|]. intros _. simpl.
    unfold not_space. now rewrite Ea.
  - intros _. specialize (IH d r eq_refl). exact IH.
Qed.

Lemma rstrip_head s : head_ok is_space s = false -> head_ok is_space (rstrip s) = false.
Proof.
  destruct s as [|a s]; simpl; [reflexivity|]. intros Ha.
  destruct (rstrip s); [rewrite Ha|]; simpl; auto.
Qed.

Lemma lstrip_head_ok s : head_ok is_space (lstrip s) = false.
Proof.
  destruct (lstrip s) as [|c s'] eqn:E; [reflexivity|].
  exact (lstrip_head _ _ _ E).
Qed.

Lemma strip_strip s : strip (strip s) = strip s.
Proof.
  destruct (strip s) as [|c s'] eqn:E; [reflexivity|]. rewrite <- E.
  apply strip_fixed.
  - unfold strip. apply rstrip_head, lstrip_head_ok.
  - unfold strip in *. exact (rstrip_last _ _ _ E).
Qed.

Lemma classify_strip c : classify (strip c) = classify c.
Proof. unfold classify. now rewrite strip_strip. Qed.

(* ================================================================= *)
(** ** The three patterns on texts of a known form *)

Lemma slice_in subject pre x post i j :
  subject = pre ++ x ++ post ->
  i = String.length pre -> j = i + String.length x ->
  slice subject i j = x.
Proof. intros ->. apply slice_mid. Qed.

Ltac slice_is pre x post :=
  apply (slice_in _ pre x post);
  [ rewrite ?app_assoc_s; reflexivity
  | rewrite ?length_app_s; simpl; lia
  | rewrite ?length_app_s; simpl; lia ].

Lemma fk_match x y z :
  is_ident x = true -> is_ident y = true -> is_ident z = true ->
  exists e,
    match_here icase foreign_key_re (fk_clause x y z) 0 []
    = Some (e, [13; 13 + String.length x;
                26 + String.length x;
                26 + String.length x + String.length y;
                27 + String.length x + String.length y;
                27 + String.length x + String.length y + String.length z]).
Proof.
  intros Hx Hy Hz.
  apply is_ident_inv in Hx as [Hx Wx], Hy as [Hy Wy], Hz as [Hz Wz].
  assert (G : exists o, match_here icase foreign_key_re (fk_clause x y z) 0 []
                        = Some o /\
                        snd o = [13; 13 + String.length x;
                26 + String.length x;
                26 + String.length x + String.length y;
                27 + String.length x + String.length y;
                27 + String.length x + String.length y + String.length z]).
  { eexists. split.
    - unfold foreign_key_re, fk_clause. cbn [app].
      change ("FOREIGN KEY (" ++ x ++ ") REFERENCES " ++ y ++ "(" ++ z ++ ")")
        with ("FOREIGN" ++ " " ++ "KEY" ++ " " ++ "(" ++ x ++ ")" ++ " "
                ++ "REFERENCES" ++ " " ++ y ++ "" ++ "(" ++ z ++ ")" ++ "").
      rewrite match_lit by reflexivity.
      apply match_plus_max; [discriminate | reflexivity | reflexivity |].
      rewrite match_lit by reflexivity.
      apply match_star_max; [reflexivity | reflexivity |].
      rewrite match_lit by reflexivity.
      rewrite match_group_open.
      apply match_plus_max; [exact Hx | exact Wx | reflexivity |].
      rewrite match_group_close.
      rewrite match_lit by reflexivity.
      apply match_plus_max; [discriminate | reflexivity | reflexivity |].
      rewrite match_lit by reflexivity.
      apply match_plus_max;
        [discriminate | reflexivity | now apply head_space_ident |].
      rewrite match_group_open.
      apply match_plus_max; [exact Hy | exact Wy | reflexivity |].
      rewrite match_group_close.
      apply match_star_max; [reflexivity | reflexivity |].
      rewrite match_lit by reflexivity.
      rewrite match_group_open.
      apply match_plus_max; [exact Hz | exact Wz | reflexivity |].
      rewrite match_group_close.
      rewrite match_lit_end by reflexivity.
      reflexivity.
    - simpl. repeat f_equal; lia. }
  destruct G as ([e m] & G1 & G2). simpl in G2. subst m. eauto.
Qed.

Lemma fk_search x y z :
  is_ident x = true -> is_ident y = true -> is_ident z = true ->
  exists m, search icase foreign_key_re (fk_clause x y z) = Some m
            /\ m_groups m = [x; y; z].
Proof.
  intros Hx Hy Hz. destruct (fk_match x y z Hx Hy Hz) as [e He].
  eexists. split; [exact (search_at_start _ _ _ _ He)|].
  unfold mk_match, fk_clause. cbn [m_groups snd groups_of].
  f_equal; [|f_equal; [|f_equal]].
  - slice_is "FOREIGN KEY (" x (") REFERENCES " ++ y ++ "(" ++ z ++ ")").
  - slice_is ("FOREIGN KEY (" ++ x ++ ") REFERENCES ") y ("(" ++ z ++ ")").
  - slice_is ("FOREIGN KEY (" ++ x ++ ") REFERENCES " ++ y ++ "(") z ")".
Qed.

Lemma pk_search a s :
  is_ident a = true ->
  exists m, search icase primary_key_re ("PRIMARY KEY(" ++ a ++ ")" ++ s) = Some m
            /\ m_groups m = [a].
Proof.
  intros Ha. apply is_ident_inv in Ha as [Ha Wa].
  assert (G : exists o,
             match_here icase primary_key_re ("PRIMARY KEY(" ++ a ++ ")" ++ s) 0 []
             = Some o /\ snd o = [12; 12 + String.length a]).
  { eexists. split.
    - unfold primary_key_re. cbn [app].
      change ("PRIMARY KEY(" ++ a ++ ")" ++ s)
        with ("PRIMARY" ++ " " ++ "KEY" ++ "" ++ "(" ++ a ++ ")" ++ s).
      rewrite match_lit by reflexivity.
      apply match_plus_max; [discriminate | reflexivity | reflexivity |].
      rewrite match_lit by reflexivity.
      apply match_star_max; [reflexivity | reflexivity |].
      rewrite match_lit by reflexivity.
      rewrite match_group_open.
      apply match_plus_max; [exact Ha | exact Wa | reflexivity |].
      rewrite match_group_close.
      rewrite match_lit_end by reflexivity.
      reflexivity.
    - simpl. repeat f_equal; lia. }
  destruct G as ([e m] & G1 & G2). simpl in G2. subst m.
  eexists. split; [exact (search_at_start _ _ _ _ G1)|].
  unfold mk_match. cbn [m_groups snd groups_of]. f_equal.
  slice_is "PRIMARY KEY(" a (")" ++ s).
Qed.

Lemma fk_clause_strip x y z : strip (fk_clause x y z) = fk_clause x y z.
Proof.
  apply strip_fixed; [reflexivity|].
  replace (fk_clause x y z)
    with (("FOREIGN KEY (" ++ x ++ ") REFERENCES " ++ y ++ "(" ++ z) ++ ")")
    by (unfold fk_clause; rewrite ?app_assoc_s; reflexivity).
  now rewrite last_ok_app.
Qed.

Lemma classify_fk x y z :
  is_ident x = true -> is_ident y = true -> is_ident z = true ->
  classify (fk_clause x y z) = ForeignKey (Some (fk_descriptor x y z)).
Proof.
  intros Hx Hy Hz. unfold classify. rewrite fk_clause_strip.
  change (is_primary_key_clause (fk_clause x y z)) with false.
  change (is_foreign_key_clause (fk_clause x y z)) with true. cbv iota.
  destruct (fk_search x y z Hx Hy Hz) as (m & -> & Hm). simpl.
  unfold group. now rewrite Hm.
Qed.

(* ================================================================= *)
(** ** Primary keys and columns *)

Lemma last_cons {A : Type} (x : A) l d : last (x :: l) d = last l x.
Proof.
  revert x d. induction l as [|y l IH]; intros x d; [reflexivity|].
  change (last (x :: y :: l) d) with (last (y :: l) d).
  now rewrite (IH y d), (IH y x).
Qed.

Lemma after_clauses_cons st c defs :
  after_clauses st (c :: defs) = after_clauses (apply_clause st (classify c)) defs.
Proof. reflexivity. Qed.

Lemma after_clauses_primary_key : forall defs st,
  t_primary_key (after_clauses st defs)
  = last (map PStr (primary_keys defs)) (t_primary_key st).
Proof.
  induction defs as [|c defs IH]; intros st; [reflexivity|].
  rewrite after_clauses_cons, IH. unfold primary_keys. cbn [flat_map].
  fold (primary_keys defs).
  destruct (classify c) as [[col|] | [d|] | name type | ]; try reflexivity.
  cbn [apply_clause t_primary_key app map]. now rewrite last_cons.
Qed.

Lemma after_clauses_columns_ext : forall defs st1 st2,
  t_columns st1 = t_columns st2 ->
  t_columns (after_clauses st1 defs) = t_columns (after_clauses st2 defs).
Proof.
  induction defs as [|c defs IH]; intros st1 st2 H; [exact H|].
  rewrite !after_clauses_cons. apply IH.
  destruct (classify c) as [[col|] | [d|] | name type | ]; simpl; congruence.
Qed.

Lemma key_clause_columns st c :
  is_primary_key_clause (strip c) || is_foreign_key_clause (strip c) = true ->
  t_columns (apply_clause st (classify c)) = t_columns st.
Proof.
  unfold classify. intros H.
  destruct (is_primary_key_clause (strip c)).
  - destruct (option_map _ _); reflexivity.
  - simpl in H. rewrite H. destruct (option_map _ _); reflexivity.
Qed.

Lemma after_clauses_columns : forall defs st,
  t_columns (after_clauses st defs)
  = t_columns (after_clauses st (column_clauses defs)).
Proof.
  induction defs as [|c defs IH]; intros st; [reflexivity|].
  unfold column_clauses. cbn [filter]. fold (column_clauses defs).
  destruct (is_primary_key_clause (strip c) || is_foreign_key_clause (strip c))
    eqn:E; cbn [negb].
  - rewrite after_clauses_cons, <- IH.
    apply after_clauses_columns_ext. now apply key_clause_columns.
  - rewrite !after_clauses_cons. apply IH.
Qed.

(* ================================================================= *)
(** ** The shape of the result *)

Lemma parse_statement_ok (schema : dict) m :
  Forall table_entry_ok schema ->
  exists schema' : dict, parse_statement schema m = Ok schema'
                  /\ Forall table_entry_ok schema'.
Proof.
  intros H. unfold parse_statement.
  rewrite (parse_clauses_fold _ _ _ (TableState [] PNone []))
    by (rewrite new_table_state; apply dict_get_set_same).
  rewrite dict_set_set. eexists. split; [reflexivity|].
  apply (Forall_dict_set
           (fun v => exists st, v = table_dict st /\ table_state_ok st)).
  - exact H.
  - eexists. split; [reflexivity|]. apply after_clauses_ok.
    repeat split; simpl; auto.
Qed.

Lemma parse_statements_ok : forall ms (schema : dict),
  Forall table_entry_ok schema ->
  exists schema' : dict, for_each ms schema parse_statement = Ok schema'
                  /\ Forall table_entry_ok schema'.
Proof.
  induction ms as [|m ms IH]; intros schema H; simpl.
  - eauto.
  - destruct (parse_statement_ok schema m H) as (s1 & -> & H1). simpl.
    apply IH, H1.
Qed.

(** C9. For every input text [parse_sql_schema] returns a dictionary,
    raising nothing, and each of its entries has a string as key and
    as value a dictionary with exactly the keys ["columns"],
    ["primary_key"] and ["foreign_keys"], where [columns] maps strings
    to strings, [primary_key] is [None] or a string and [foreign_keys]
    is a list of strings. *)
Theorem parse_sql_schema_shape sql_statements :
  exists schema,
    parse_sql_schema sql_statements = Ok (PDict schema)
    /\ Forall table_entry_ok schema.
Proof.
  unfold parse_sql_schema. cbv zeta.
  destruct (parse_statements_ok
              (finditer icase_dotall create_table_re sql_statements) [])
    as (schema & E & H); [constructor|].
  rewrite E. simpl. eauto.
Qed.

(* ================================================================= *)
(** ** A statement of the form [CREATE TABLE t (a ta, b tb, PRIMARY KEY(a));] *)

Lemma create_table_match t body rest :
  is_ident t = true -> has_char ";" body = false ->
  match_here icase_dotall create_table_re
    ("CREATE TABLE " ++ t ++ " (" ++ body ++ ");" ++ rest) 0 []
  = Some (15 + String.length t + String.length body + 2,
          [13; 13 + String.length t;
           15 + String.length t;
           15 + String.length t + String.length body]).
Proof.
  intros Ht Hb. apply is_ident_inv in Ht as [Ht Wt].
  unfold create_table_re. cbn [app].
  change ("CREATE TABLE " ++ t ++ " (" ++ body ++ ");" ++ rest)
    with ("CREATE" ++ " " ++ "TABLE" ++ " " ++ t ++ " " ++ "("
            ++ body ++ ");" ++ rest).
  rewrite match_lit by reflexivity.
  apply match_plus_max; [discriminate | reflexivity | reflexivity |].
  rewrite match_lit by reflexivity.
  apply match_plus_max;
    [discriminate | reflexivity | now apply head_space_ident |].
  rewrite match_group_open.
  apply match_plus_max; [exact Ht | exact Wt | reflexivity |].
  rewrite match_group_close.
  apply match_star_max; [reflexivity | reflexivity |].
  rewrite match_lit by reflexivity.
  rewrite match_group_open.
  rewrite match_lazy_body by exact Hb.
  simpl. repeat f_equal; lia.
Qed.

(** A match that covers the whole subject is the only one. *)
Lemma finditer_single f r subject o :
  match_here f r subject 0 [] = Some o ->
  fst o = String.length subject -> subject <> "" ->
  match_here f r "" (String.length subject) [] = None ->
  finditer f r subject = [mk_match subject 0 o].
Proof.
  intros Hm He Hs Hn. unfold finditer.
  destruct subject as [|c s]; [congruence|].
  cbn [finditer_from]. rewrite Hm, He. simpl String.length.
  replace (S (String.length s) - 0 - 1) with (String.length s) by lia.
  rewrite finditer_skip. cbn [finditer_from].
  simpl String.length in Hn. rewrite Nat.add_1_l, Hn. reflexivity.
Qed.

Lemma word_clause_not_key rest : forall a kw,
  all_chars is_word a = true -> upper a <> kw ->
  all_chars not_space kw = true ->
  startswith (upper (a ++ " " ++ rest)) (kw ++ " KEY") = false.
Proof.
  induction a as [|c a IH]; intros kw Ha Hne Hkw.
  - destruct kw as [|k kw]; [now contradiction Hne|].
    simpl in Hkw. apply andb_prop in Hkw as [Hk _].
    change (startswith (upper ("" ++ " " ++ rest)) (String k kw ++ " KEY"))
      with (Ascii.eqb " " k && startswith (upper rest) (kw ++ " KEY")).
    destruct (Ascii.eqb_spec " "%char k) as [<-|]; [discriminate | reflexivity].
  - simpl in Ha. apply andb_prop in Ha as [Hc Ha].
    destruct kw as [|k kw].
    + change (startswith (upper (String c a ++ " " ++ rest)) ("" ++ " KEY"))
        with (Ascii.eqb (upper_char c) " "
              && startswith (upper (a ++ " " ++ rest)) "KEY").
      pose proof (upper_word_not_space c Hc) as Hu.
      destruct (Ascii.eqb_spec (upper_char c) " "%char) as [E|];
        [rewrite E in Hu; discriminate | reflexivity].
    + simpl in Hkw. apply andb_prop in Hkw as [_ Hkw].
      change (startswith (upper (String c a ++ " " ++ rest))
                (String k kw ++ " KEY"))
        with (Ascii.eqb (upper_char c) k
              && startswith (upper (a ++ " " ++ rest)) (kw ++ " KEY")).
      destruct (Ascii.eqb_spec (upper_char c) k) as [E|]; [|reflexivity].
      simpl. apply IH; auto. intros E'. apply Hne.
      unfold upper in *. simpl. now rewrite E, E'.
Qed.

Lemma column_name_inv a :
  column_name a = true ->
  a <> "" /\ all_chars is_word a = true
  /\ upper a <> "PRIMARY" /\ upper a <> "FOREIGN".
Proof.
  unfold column_name. intros H.
  apply andb_prop in H as [H Hf]. apply andb_prop in H as [Hi Hp].
  apply is_ident_inv in Hi as [Hn Hw].
  apply negb_true_iff, String.eqb_neq in Hp, Hf. auto.
Qed.

Lemma simple_type_inv ty :
  simple_type ty = true ->
  ty <> "" /\ head_ok not_space ty = true /\ last_ok not_space ty = true
  /\ has_char "," ty = false /\ has_char ";" ty = false.
Proof.
  unfold simple_type. intros H.
  apply andb_prop in H as [H Hs]. apply andb_prop in H as [H Hc].
  apply andb_prop in H as [Hh Hl].
  apply negb_true_iff in Hs, Hc. repeat split; auto.
  intros ->. discriminate.
Qed.

Lemma word_chars_not_space w :
  all_chars is_word w = true -> all_chars not_space w = true.
Proof.
  induction w as [|c w IH]; simpl; [reflexivity|].
  intros H. apply andb_prop in H as [Hc Hw].
  unfold not_space at 1. now rewrite (word_not_space c Hc), IH.
Qed.

Lemma column_clause_strip a ty :
  column_name a = true -> simple_type ty = true ->
  strip (a ++ " " ++ ty) = a ++ " " ++ ty.
Proof.
  intros Ha Hty. apply column_name_inv in Ha as (Hn & Hw & _).
  apply simple_type_inv in Hty as (Htn & _ & Hl & _).
  apply strip_fixed.
  - rewrite head_ok_app by assumption.
    apply word_head_not_space; auto using word_chars_not_space.
  - rewrite <- app_assoc_s, last_ok_app_r; assumption.
Qed.

Lemma classify_column a ty :
  column_name a = true -> simple_type ty = true ->
  classify (a ++ " " ++ ty) = Column a ty.
Proof.
  intros Ha Hty. unfold classify. rewrite column_clause_strip by assumption.
  apply column_name_inv in Ha as (Hn & Hw & Hp & Hf).
  apply simple_type_inv in Hty as (Htn & Hh & _).
  unfold is_primary_key_clause, is_foreign_key_clause.
  pose proof (word_clause_not_key ty a "PRIMARY" Hw Hp eq_refl) as Kp.
  pose proof (word_clause_not_key ty a "FOREIGN" Hw Hf eq_refl) as Kf.
  change ("PRIMARY" ++ " KEY") with "PRIMARY KEY" in Kp.
  change ("FOREIGN" ++ " KEY") with "FOREIGN KEY" in Kf.
  rewrite Kp, Kf.
  rewrite (split_none_1_two a " " ty);
    auto using word_chars_not_space; discriminate.
Qed.

Lemma classify_primary_key a :
  is_ident a = true ->
  classify ("PRIMARY KEY(" ++ a ++ ")") = PrimaryKey (Some a).
Proof.
  intros Ha. unfold classify.
  assert (Hs : strip ("PRIMARY KEY(" ++ a ++ ")") = "PRIMARY KEY(" ++ a ++ ")").
  { apply strip_fixed; [reflexivity|].
    replace ("PRIMARY KEY(" ++ a ++ ")") with (("PRIMARY KEY(" ++ a) ++ ")")
      by (now rewrite app_assoc_s).
    now rewrite last_ok_app. }
  rewrite Hs.
  change (is_primary_key_clause ("PRIMARY KEY(" ++ a ++ ")")) with true.
  cbv iota.
  destruct (pk_search a "" Ha) as (m & E & Hm).
  change ("PRIMARY KEY(" ++ a ++ ")" ++ "") with ("PRIMARY KEY(" ++ a ++ ")")
    in E.
  rewrite E. simpl. unfold group. now rewrite Hm.
Qed.

Lemma create_table_finditer t body :
  is_ident t = true -> has_char ";" body = false ->
  exists e,
    finditer icase_dotall create_table_re
      ("CREATE TABLE " ++ t ++ " (" ++ body ++ ");")
    = [RMatch 0 e [t; body]].
Proof.
  intros Ht Hb. eexists.
  pose proof (create_table_match t body "" Ht Hb) as Hm.
  change (");" ++ "") with ");" in Hm.
  rewrite (finditer_single _ _ _ _ Hm).
  - unfold mk_match. cbn [fst snd groups_of]. f_equal. f_equal. f_equal.
    + slice_is "CREATE TABLE " t (" (" ++ body ++ ");").
    + f_equal. slice_is ("CREATE TABLE " ++ t ++ " (") body ");".
  - cbn [fst]. rewrite !length_app_s. simpl. lia.
  - discriminate.
  - reflexivity.
Qed.

Lemma create_table_body_split a ta b tb :
  column_name a = true -> simple_type ta = true ->
  column_name b = true -> simple_type tb = true ->
  split_on ","
    (a ++ " " ++ ta ++ ", " ++ b ++ " " ++ tb ++ ", PRIMARY KEY(" ++ a ++ ")")
  = [a ++ " " ++ ta; " " ++ b ++ " " ++ tb; " PRIMARY KEY(" ++ a ++ ")"].
Proof.
  intros Ha Hta Hb Htb.
  apply column_name_inv in Ha as (_ & Wa & _), Hb as (_ & Wb & _).
  apply simple_type_inv in Hta as (_ & _ & _ & Cta & _),
                           Htb as (_ & _ & _ & Ctb & _).
  assert (Ca : has_char "," a = false) by (now apply word_has_no).
  assert (Cb : has_char "," b = false) by (now apply word_has_no).
  replace (a ++ " " ++ ta ++ ", " ++ b ++ " " ++ tb ++ ", PRIMARY KEY("
             ++ a ++ ")")
    with ((a ++ " " ++ ta) ++ String ","
            ((" " ++ b ++ " " ++ tb) ++ String "," (" PRIMARY KEY(" ++ a ++ ")")))
    by (rewrite !app_assoc_s; reflexivity).
  rewrite split_on_cut, split_on_cut, split_on_none; try reflexivity.
  - change (" PRIMARY KEY(" ++ a ++ ")") with (" PRIMARY KEY(" ++ (a ++ ")")).
    rewrite !has_char_app, Ca. reflexivity.
  - change (" " ++ b ++ " " ++ tb) with (" " ++ (b ++ (" " ++ tb))).
    rewrite !has_char_app, Cb, Ctb. reflexivity.
  - rewrite !has_char_app, Ca, Cta. reflexivity.
Qed.

Lemma create_table_body_semicolon a ta b tb :
  column_name a = true -> simple_type ta = true ->
  column_name b = true -> simple_type tb = true ->
  has_char ";"
    (a ++ " " ++ ta ++ ", " ++ b ++ " " ++ tb ++ ", PRIMARY KEY(" ++ a ++ ")")
  = false.
Proof.
  intros Ha Hta Hb Htb.
  apply column_name_inv in Ha as (_ & Wa & _), Hb as (_ & Wb & _).
  apply simple_type_inv in Hta as (_ & _ & _ & _ & Sta),
                           Htb as (_ & _ & _ & _ & Stb).
  assert (Sa : has_char ";" a = false) by (now apply word_has_no).
  assert (Sb : has_char ";" b = false) by (now apply word_has_no).
  rewrite !has_char_app, Sa, Sta, Sb, Stb. reflexivity.
Qed.

Lemma strip_blank_left s :
  strip s = s -> strip (" " ++ s) = s.
Proof.
  intros H. unfold strip in *. change (lstrip (" " ++ s)) with (lstrip s).
  exact H.
Qed.

(** C1. For a table name [t], column names [a] and [b] and simple
    column types [ta] and [tb], the text
    [CREATE TABLE t (a ta, b tb, PRIMARY KEY(a));] is extracted to the
    one table [t] whose columns are [{a: ta, b: tb}], whose primary key
    is [a] and which has no foreign keys. *)
Theorem create_table_extracted t a ta b tb :
  is_ident t = true ->
  column_name a = true -> simple_type ta = true ->
  column_name b = true -> simple_type tb = true ->
  parse_sql_schema (create_table_text t a ta b tb)
  = Ok (PDict
          [(KStr t,
            PDict [(KStr "columns",
                    PDict (dict_set [(KStr a, PStr ta)] (KStr b) (PStr tb)));
                   (KStr "primary_key", PStr a);
                   (KStr "foreign_keys", PList [])])]).
Proof.
  intros Ht Ha Hta Hb Htb.
  pose proof (create_table_body_semicolon a ta b tb Ha Hta Hb Htb) as Hsemi.
  destruct (create_table_finditer t _ Ht Hsemi) as [e Hfind].
  unfold parse_sql_schema. cbv zeta.
  replace (create_table_text t a ta b tb)
    with ("CREATE TABLE " ++ t ++ " ("
            ++ (a ++ " " ++ ta ++ ", " ++ b ++ " " ++ tb ++ ", PRIMARY KEY("
                  ++ a ++ ")") ++ ");")
    by (unfold create_table_text; rewrite !app_assoc_s; reflexivity).
  rewrite Hfind. cbn [for_each]. unfold parse_statement.
  change (group (RMatch 0 e [t; ?body]) 1) with t.
  cbn [group m_groups nth Nat.sub].
  rewrite (create_table_body_split a ta b tb) by assumption.
  cbn [map].
  rewrite (column_clause_strip a ta) by assumption.
  rewrite (strip_blank_left (b ++ " " ++ tb))
    by (now apply column_clause_strip).
  rewrite (parse_clauses_fold t _ _ (TableState [] PNone []))
    by (cbn [dict_set dict_get key_eqb]; now rewrite String.eqb_refl).
  unfold after_clauses. cbn [map fold_left].
  rewrite (classify_column a ta), (classify_column b tb) by assumption.
  change (" PRIMARY KEY(" ++ a ++ ")") with (" " ++ "PRIMARY KEY(" ++ a ++ ")").
  rewrite (strip_blank_left ("PRIMARY KEY(" ++ a ++ ")")).
  - rewrite classify_primary_key
      by (apply column_name_inv in Ha as (? & ? & _); unfold is_ident;
          apply andb_true_intro; split;
          [now apply negb_true_iff, String.eqb_neq | assumption]).
    cbn [apply_clause t_columns t_primary_key t_foreign_keys dict_set
           key_eqb table_dict bind].
    now rewrite String.eqb_refl.
  - apply strip_fixed; [reflexivity|].
    replace ("PRIMARY KEY(" ++ a ++ ")") with (("PRIMARY KEY(" ++ a) ++ ")")
      by (now rewrite app_assoc_s).
    now rewrite last_ok_app.
Qed.

Lemma create_table_extracted_witness :
  parse_sql_schema "CREATE TABLE t (a INT, b VARCHAR(10), PRIMARY KEY(a));"
  = Ok (PDict
          [(KStr "t",
            PDict [(KStr "columns",
                    PDict [(KStr "a", PStr "INT");
                           (KStr "b", PStr "VARCHAR(10)")]);
                   (KStr "primary_key", PStr "a");
                   (KStr "foreign_keys", PList [])])]).
Proof.
  exact (create_table_extracted "t" "a" "INT" "b" "VARCHAR(10)"
           eq_refl eq_refl eq_refl eq_refl eq_refl).
Defined.

(* ================================================================= *)
(** ** The formatter *)

Lemma for_each_append {A : Type} (g : A -> string) : forall l acc,
  for_each l acc (fun acc x => Ok (acc ++ g x))
  = Ok (acc ++ String.concat "" (map g l)).
Proof.
  induction l as [|x l IH]; intros acc; simpl.
  - now rewrite app_nil_r_s.
  - rewrite IH, app_assoc_s. destruct l; [|reflexivity].
    simpl. now rewrite app_nil_r_s.
Qed.

Lemma dict_mem_get d k v : dict_get d k = Some v -> dict_mem d k = true.
Proof. unfold dict_mem. now intros ->. Qed.

Lemma dict_mem_none d k : dict_get d k = None -> dict_mem d k = false.
Proof. unfold dict_mem. now intros ->. Qed.

(** C8. The example schema is formatted to the header line
    [DATABASE SCHEMA:], a blank line, and the lines of table [t]; the
    lines ["Table: t"], ["  - a: INT"] and ["Primary Key: a"] are among
    them and the text ["Foreign Keys:"] is nowhere in the output. *)
Theorem format_example_schema :
  let out := "DATABASE SCHEMA:" ++ nl ++ nl ++ "Table: t" ++ nl
               ++ "Columns:" ++ nl ++ "  - a: INT" ++ nl
               ++ "Primary Key: a" ++ nl ++ nl in
  format_schema_for_prompt example_schema = Ok out
  /\ In "Table: t" (lines out)
  /\ In "  - a: INT" (lines out)
  /\ In "Primary Key: a" (lines out)
  /\ contains out "Foreign Keys:" = false
  /\ firstn 2 (lines out) = ["DATABASE SCHEMA:"; ""].
Proof.
  cbv zeta. split; [reflexivity|]. vm_compute. intuition.
Qed.

(** C2. On a schema whose ['columns'] value is a list the formatter
    raises [AttributeError]: the value is asked for its [items] without
    a check that it is a mapping. *)
Theorem format_columns_list_raises :
  format_schema_for_prompt columns_as_list_schema
  = Raise (Exn AttributeError "'list' object has no attribute 'items'").
Proof. reflexivity. Qed.

(** Table entries that are not dictionaries are passed over. *)
Lemma format_table_not_dict formatted name v :
  (forall d, v <> PDict d) ->
  format_table formatted (name, v)
  = Ok ((formatted ++ "Table: " ++ key_str name ++ nl) ++ nl).
Proof. intros H. destruct v; try reflexivity. now contradiction (H d). Qed.

(* ================================================================= *)
(** ** The validator *)

(** C4. [validate_schema] is true exactly on the dictionaries with at
    least one entry; it is false on the empty dictionary and on a
    string; and what the extractor returns for a text in which no
    statement is found is rejected. *)
Theorem validate_schema_nonempty_mapping :
  (forall schema,
     validate_schema schema = true
     <-> exists entry rest, schema = PDict (entry :: rest))
  /\ validate_schema (PDict []) = false
  /\ (forall s, validate_schema (PStr s) = false)
  /\ (forall sql_statements,
        finditer icase_dotall create_table_re sql_statements = [] ->
        exists schema, parse_sql_schema sql_statements = Ok schema
                       /\ validate_schema schema = false).
Proof.
  split; [|split; [|split]]; try reflexivity.
  - intros schema. split.
    + destruct schema as [| | | | |[|entry rest]]; try discriminate. eauto.
    + intros (entry & rest & ->). reflexivity.
  - intros sql H. exists (PDict []). unfold parse_sql_schema.
    rewrite H. split; reflexivity.
Qed.

Lemma validate_schema_nonempty_mapping_witness :
  exists schema, parse_sql_schema "SELECT 1;" = Ok schema
                 /\ validate_schema schema = false.
Proof.
  exact (proj2 (proj2 (proj2 validate_schema_nonempty_mapping))
           "SELECT 1;" eq_refl).
Defined.

(* ================================================================= *)
(** ** The loader *)

(** C3, as the claim states it, fails: the file [S.JSON] exists and its
    extension [.JSON] is none of the four, yet it is loaded as JSON and
    nothing is raised. *)
Lemma load_upper_case_extension :
  let w := world_of [("S.JSON", "{}")] in
  path_exists w "S.JSON" = true
  /\ ~ In (path_suffix w "S.JSON") supported_suffixes
  /\ snd (load_schema_from_file w "S.JSON") = Ok (PDict [])
  /\ ~ (exists msg, snd (load_schema_from_file w "S.JSON")
                    = Raise (Exn ValueError msg)).
Proof.
  cbv zeta. split; [reflexivity|]. split; [|split].
  - simpl. intros [H|[H|[H|[H|[]]]]]; discriminate.
  - reflexivity.
  - intros [msg H]. discriminate.
Qed.

Lemma existsb_eqb_false s l :
  ~ In s l -> existsb (String.eqb s) l = false.
Proof.
  induction l as [|x l IH]; simpl; [reflexivity|]. intros H.
  rewrite IH by tauto. destruct (String.eqb_spec s x); [|reflexivity].
  subst. tauto.
Qed.

(** C3, amended.  When the file does not exist the loader raises
    [FileNotFoundError] with the path in the message, and when it
    exists and its extension, in lower case, is none of [.json],
    [.yaml], [.yml], [.sql], the loader raises [ValueError] with the
    extension in the message; in both cases no file is opened and
    nothing is decoded or parsed. *)
Theorem load_schema_errors w file_path :
  (path_exists w file_path = false ->
   snd (load_schema_from_file w file_path)
   = Raise (Exn FileNotFoundError
              ("Schema file not found: " ++ path_str w file_path))
   /\ existsb is_decode (fst (load_schema_from_file w file_path)) = false)
  /\ (path_exists w file_path = true ->
      ~ In (lower (path_suffix w file_path)) supported_suffixes ->
      snd (load_schema_from_file w file_path)
      = Raise (Exn ValueError
                 ("Unsupported file format: " ++ path_suffix w file_path))
      /\ existsb is_decode (fst (load_schema_from_file w file_path)) = false).
Proof.
  split.
  - intros H. unfold load_schema_from_file. rewrite H. split; reflexivity.
  - intros H Hs. unfold load_schema_from_file, load_body. rewrite H.
    pose proof (existsb_eqb_false _ _ Hs) as E. simpl in E.
    apply orb_false_elim in E as [E1 E]. apply orb_false_elim in E as [E2 E].
    apply orb_false_elim in E as [E3 E]. apply orb_false_elim in E as [E4 _].
    cbn [negb existsb]. rewrite E1, E2, E3, E4. split; reflexivity.
Qed.

Lemma load_schema_errors_witness :
  let w := world_of [("notes.txt", "hello")] in
  snd (load_schema_from_file w "missing.json")
  = Raise (Exn FileNotFoundError "Schema file not found: missing.json")
  /\ snd (load_schema_from_file w "notes.txt")
     = Raise (Exn ValueError "Unsupported file format: .txt").
Proof.
  cbv zeta. split.
  - exact (proj1 (proj1 (load_schema_errors
                           (world_of [("notes.txt", "hello")]) "missing.json")
                    eq_refl)).
  - refine (proj1 (proj2 (load_schema_errors
                            (world_of [("notes.txt", "hello")]) "notes.txt")
                     eq_refl _)).
    simpl. intros [H|[H|[H|[H|[]]]]]; discriminate.
Defined.

(* ================================================================= *)
(** ** The functions on sample inputs *)

Example parse_two_tables :
  parse_sql_schema
    ("create table users (id INT, name VARCHAR(50) NOT NULL, primary key (id));"
       ++ nl ++
     "CREATE TABLE orders (" ++ nl ++
     "  id INT," ++ nl ++
     "  uid INT," ++ nl ++
     "  note," ++ nl ++
     "  PRIMARY KEY(id)," ++ nl ++
     "  FOREIGN KEY (uid) REFERENCES users(id)" ++ nl ++
     ");")
  = Ok (PDict
          [(KStr "users",
            PDict [(KStr "columns",
                    PDict [(KStr "id", PStr "INT");
                           (KStr "name", PStr "VARCHAR(50) NOT NULL")]);
                   (KStr "primary_key", PStr "id");
                   (KStr "foreign_keys", PList [])]);
           (KStr "orders",
            PDict [(KStr "columns",
                    PDict [(KStr "id", PStr "INT");
                           (KStr "uid", PStr "INT");
                           (KStr "note", PStr "VARCHAR(255)")]);
                   (KStr "primary_key", PStr "id");
                   (KStr "foreign_keys", PList [PStr "uid -> users.id"])])]).
Proof. reflexivity. Qed.

(** The comma inside [DECIMAL(10,2)] cuts the clause in two. *)
Example parse_nested_comma :
  parse_sql_schema "CREATE TABLE p (price DECIMAL(10,2));"
  = Ok (PDict
          [(KStr "p",
            PDict [(KStr "columns",
                    PDict [(KStr "price", PStr "DECIMAL(10");
                           (KStr "2)", PStr "VARCHAR(255)")]);
                   (KStr "primary_key", PNone);
                   (KStr "foreign_keys", PList [])])]).
Proof. reflexivity. Qed.

Example format_with_foreign_keys :
  format_schema_for_prompt
    (PDict [(KStr "orders",
             PDict [(KStr "columns", PDict [(KStr "uid", PStr "INT")]);
                    (KStr "primary_key", PNone);
                    (KStr "foreign_keys", PList [PStr "uid -> users.id"])]);
            (KStr "raw", PStr "not a table")])
  = Ok ("DATABASE SCHEMA:" ++ nl ++ nl
          ++ "Table: orders" ++ nl ++ "Columns:" ++ nl
          ++ "  - uid: INT" ++ nl
          ++ "Foreign Keys:" ++ nl ++ "  - uid -> users.id" ++ nl ++ nl
          ++ "Table: raw" ++ nl ++ nl).
Proof. reflexivity. Qed.

Example format_not_a_dict :
  format_schema_for_prompt (PStr "users(id, name)")
  = Ok ("DATABASE SCHEMA:" ++ nl ++ nl).
Proof. reflexivity. Qed.

Example load_sql_file :
  load_schema_from_file
    (world_of [("schema.sql", "CREATE TABLE t (a INT);")]) "schema.sql"
  = ([LogInfo "Loading schema from file: schema.sql"; Exists "schema.sql";
      Open "schema.sql"; ParseSql; LogInfo "Schema loaded successfully"],
     Ok (PDict
           [(KStr "t",
             PDict [(KStr "columns", PDict [(KStr "a", PStr "INT")]);
                    (KStr "primary_key", PNone);
                    (KStr "foreign_keys", PList [])])])).
Proof. reflexivity. Qed.

(* ================================================================= *)
(** ** The extractor as a whole *)

Lemma parse_statement_entry (schema : dict) m :
  parse_statement schema m
  = Ok (dict_set schema (fst (entry_of m)) (snd (entry_of m))).
Proof.
  unfold parse_statement, entry_of, table_of_body. cbn [fst snd].
  rewrite (parse_clauses_fold _ _ _ (TableState [] PNone []))
    by (rewrite new_table_state; apply dict_get_set_same).
  now rewrite dict_set_set.
Qed.

Lemma parse_statements_fold : forall ms (schema : dict),
  for_each ms schema parse_statement = Ok (fold_left add_entry ms schema).
Proof.
  induction ms as [|m ms IH]; intros schema; simpl; [reflexivity|].
  rewrite parse_statement_entry. simpl. apply IH.
Qed.

Lemma parse_sql_schema_fold sql_statements :
  parse_sql_schema sql_statements
  = Ok (PDict (fold_left add_entry (statements sql_statements) [])).
Proof.
  unfold parse_sql_schema, statements. cbv zeta.
  now rewrite parse_statements_fold.
Qed.

Lemma dict_get_set_other d a b v :
  a <> b ->
  dict_get (dict_set d (KStr a) v) (KStr b) = dict_get d (KStr b).
Proof.
  intros Hab. induction d as [|[k x] d IH]; simpl.
  - apply String.eqb_neq in Hab. now rewrite Hab.
  - destruct (key_eqb k (KStr a)) eqn:E; simpl.
    + destruct k as [| | |s]; simpl in *; try discriminate.
      apply String.eqb_eq in E. subst s.
      apply String.eqb_neq in Hab. now rewrite Hab.
    + now rewrite IH.
Qed.

Lemma dict_get_set d a b v :
  dict_get (dict_set d (KStr a) v) (KStr b)
  = if String.eqb a b then Some v else dict_get d (KStr b).
Proof.
  destruct (String.eqb_spec a b) as [->|H].
  - apply dict_get_set_same.
  - now apply dict_get_set_other.
Qed.

(** A dictionary filled from left to right holds, at a key, what the
    last item with that key put there. *)
Lemma dict_get_fold {A : Type} (key : A -> string) (val : A -> pyval) t :
  forall l d,
    dict_get (fold_left (fun d x => dict_set d (KStr (key x)) (val x)) l d)
             (KStr t)
    = match find (fun x => String.eqb (key x) t) (rev l) with
      | Some x => Some (val x)
      | None => dict_get d (KStr t)
      end.
Proof.
  induction l as [|x l IH] using rev_ind; intros d; [reflexivity|].
  rewrite fold_left_app, rev_app_distr. simpl.
  rewrite dict_get_set. destruct (String.eqb (key x) t); [reflexivity|].
  apply IH.
Qed.

(** X1. The entry of a table name in the result is built from the body
    of the last statement with that name, and from nothing else; a
    name no statement has is not in the result. *)
Theorem last_statement_wins sql_statements t :
  exists schema : dict,
    parse_sql_schema sql_statements = Ok (PDict schema)
    /\ dict_get schema (KStr t)
       = option_map (fun m => table_of_body (group m 2))
           (find (fun m => String.eqb (group m 1) t)
                 (rev (statements sql_statements))).
Proof.
  eexists. split; [apply parse_sql_schema_fold|].
  unfold add_entry, entry_of. cbn [fst snd].
  rewrite (dict_get_fold (fun m => group m 1)
             (fun m => table_of_body (group m 2))).
  now destruct (find _ _).
Qed.

Lemma dict_set_fresh d k v :
  dict_get d k = None -> dict_set d k v = (d ++ [(k, v)])%list.
Proof.
  induction d as [|[k' x] d IH]; simpl; [reflexivity|].
  destruct (key_eqb k' k); [discriminate|]. intros H. now rewrite IH.
Qed.

Lemma dict_get_app d k e :
  dict_get (d ++ e)%list k
  = match dict_get d k with Some v => Some v | None => dict_get e k end.
Proof.
  induction d as [|[k' x] d IH]; simpl; [reflexivity|].
  now destruct (key_eqb k' k).
Qed.

Lemma fold_add_entries_distinct : forall ms (schema : dict),
  NoDup (map table_name_of ms) ->
  (forall m, In m ms -> dict_get schema (KStr (table_name_of m)) = None) ->
  fold_left add_entry ms schema = (schema ++ map entry_of ms)%list.
Proof.
  induction ms as [|m ms IH]; intros schema Hnd Hfresh; simpl.
  - now rewrite app_nil_r.
  - inversion Hnd as [|? ? Hnotin Hnd']; subst.
    unfold add_entry at 2.
    change (fst (entry_of m)) with (KStr (table_name_of m)).
    rewrite dict_set_fresh by (apply Hfresh; now left).
    rewrite IH; auto.
    + rewrite <- app_assoc. reflexivity.
    + intros m' Hin. rewrite dict_get_app, (Hfresh m') by now right.
      simpl. destruct (String.eqb_spec (table_name_of m) (table_name_of m'))
        as [E|]; [|reflexivity].
      exfalso. apply Hnotin. rewrite E. now apply in_map.
Qed.

(** X2. When the statements of a text have different table names the
    result has one entry per statement, in the order of the
    statements. *)
Theorem distinct_tables_in_order sql_statements :
  NoDup (map table_name_of (statements sql_statements)) ->
  parse_sql_schema sql_statements
  = Ok (PDict (map entry_of (statements sql_statements))).
Proof.
  intros H. rewrite parse_sql_schema_fold.
  now rewrite fold_add_entries_distinct.
Qed.

Lemma distinct_tables_in_order_witness :
  parse_sql_schema "CREATE TABLE b (x INT); CREATE TABLE a (y INT);"
  = Ok (PDict
          [(KStr "b",
            PDict [(KStr "columns", PDict [(KStr "x", PStr "INT")]);
                   (KStr "primary_key", PNone);
                   (KStr "foreign_keys", PList [])]);
           (KStr "a",
            PDict [(KStr "columns", PDict [(KStr "y", PStr "INT")]);
                   (KStr "primary_key", PNone);
                   (KStr "foreign_keys", PList [])])]).
Proof.
  refine (distinct_tables_in_order
            "CREATE TABLE b (x INT); CREATE TABLE a (y INT);" _).
  vm_compute. repeat constructor; simpl; intuition discriminate.
Defined.

Lemma fold_add_entries_nonempty : forall ms (schema : dict),
  (ms <> [] \/ schema <> []) -> fold_left add_entry ms schema <> [].
Proof.
  induction ms as [|m ms IH]; intros schema H; simpl.
  - destruct H; congruence.
  - apply IH. right. unfold add_entry.
    destruct schema as [|[k v] d]; simpl; [intros E; discriminate E|].
    destruct (key_eqb k (KStr (group m 1))); intros E; discriminate E.
Qed.

Lemma validate_dict (d : dict) :
  validate_schema (PDict d) = true <-> d <> [].
Proof.
  destruct d; simpl; split; intros H; congruence.
Qed.

(** X3. The validator accepts the result of the extractor exactly when
    the text has at least one statement. *)
Theorem extracted_schema_valid_iff sql_statements :
  exists schema,
    parse_sql_schema sql_statements = Ok schema
    /\ (validate_schema schema = true <-> statements sql_statements <> []).
Proof.
  eexists. split; [apply parse_sql_schema_fold|].
  rewrite validate_dict. split.
  - intros H E. rewrite E in H. now apply H.
  - intros H. apply fold_add_entries_nonempty. now left.
Qed.

(* ================================================================= *)
(** ** Letter case and white space in a statement *)

Lemma lower_upper_char c : lower_char (upper_char c) = lower_char c.
Proof. each_char c; reflexivity. Qed.

Lemma is_space_upper_char c : is_space (upper_char c) = is_space c.
Proof. each_char c; reflexivity. Qed.

Lemma is_word_space c : is_space c = true -> is_word c = false.
Proof. each_char c; vm_compute; congruence. Qed.

(** With [re.IGNORECASE] a literal matches every text that is equal to
    it when both are put in upper case. *)
Lemma lit_ok_upper f q :
  ignorecase f = true -> lit_ok f (upper q) q = true.
Proof.
  intros Hf. induction q as [|c q IH]; [reflexivity|].
  unfold upper in *. simpl. rewrite IH, andb_true_r. rewrite Hf.
  apply Ascii.eqb_eq. symmetry. apply lower_upper_char.
Qed.

Lemma length_upper s : String.length (upper s) = String.length s.
Proof.
  unfold upper. induction s as [|c s IH]; simpl; [reflexivity | now rewrite IH].
Qed.

Lemma upper_app a b : upper (a ++ b) = upper a ++ upper b.
Proof.
  unfold upper. induction a as [|c a IH]; simpl; [reflexivity | now rewrite IH].
Qed.

Lemma head_space_upper s u r rest :
  upper s = String u r -> is_space u = false ->
  head_ok is_space (s ++ rest) = false.
Proof.
  destruct s as [|c s]; [discriminate|]. unfold upper. simpl.
  intros H Hu. inversion H; subst. now rewrite is_space_upper_char in Hu.
Qed.

Lemma head_word_after_spaces w r :
  all_chars is_space w = true ->
  head_ok is_word (w ++ String "(" r) = false.
Proof.
  destruct w as [|c w]; simpl; [reflexivity|].
  intros H. apply andb_prop in H as [Hc _]. now apply is_word_space.
Qed.

Lemma statement_match cr w1 tb w2 t w3 body :
  upper cr = "CREATE" -> upper tb = "TABLE" ->
  w1 <> "" -> all_chars is_space w1 = true ->
  w2 <> "" -> all_chars is_space w2 = true ->
  all_chars is_space w3 = true ->
  is_ident t = true -> has_char ";" body = false ->
  let a := 6 + String.length w1 + 5 + String.length w2 in
  let b := a + String.length t + String.length w3 + 1 in
  match_here icase_dotall create_table_re
    (statement_text cr w1 tb w2 t w3 body) 0 []
  = Some (b + String.length body + 2,
          [a; a + String.length t; b; b + String.length body]).
Proof.
  intros Hcr Htb Hn1 Hw1 Hn2 Hw2 Hw3 Ht Hb a b.
  apply is_ident_inv in Ht as [Ht Wt].
  unfold create_table_re, statement_text. cbn [app].
  change (");") with (");" ++ "").
  rewrite <- Hcr at 1. rewrite match_lit by now apply lit_ok_upper.
  apply match_plus_max;
    [exact Hn1 | exact Hw1
     | now apply (head_space_upper tb "T" "ABLE") |].
  rewrite <- Htb at 1. rewrite match_lit by now apply lit_ok_upper.
  apply match_plus_max;
    [exact Hn2 | exact Hw2 | now apply head_space_ident |].
  rewrite match_group_open.
  apply match_plus_max;
    [exact Ht | exact Wt | now apply head_word_after_spaces |].
  rewrite match_group_close.
  apply match_star_max; [exact Hw3 | reflexivity |].
  change ("(" ++ body ++ ");" ++ "") with ("(" ++ (body ++ ");" ++ "")).
  rewrite (match_lit icase_dotall "(" "(") by reflexivity.
  rewrite match_group_open.
  rewrite match_lazy_body by exact Hb.
  rewrite !length_upper.
  assert (L1 : String.length cr = 6)
    by (rewrite <- length_upper, Hcr; reflexivity).
  assert (L2 : String.length tb = 5)
    by (rewrite <- length_upper, Htb; reflexivity).
  subst a b. rewrite L1, L2. simpl. repeat f_equal; lia.
Qed.

(** X4. A statement is recognised whatever the letter case of [CREATE]
    and [TABLE] and whatever white space separates its parts; the
    table name is kept as written and the table comes from the text
    between the parentheses. *)
Theorem statement_recognised cr w1 tb w2 t w3 body :
  upper cr = "CREATE" -> upper tb = "TABLE" ->
  w1 <> "" -> all_chars is_space w1 = true ->
  w2 <> "" -> all_chars is_space w2 = true ->
  all_chars is_space w3 = true ->
  is_ident t = true -> has_char ";" body = false ->
  parse_sql_schema (statement_text cr w1 tb w2 t w3 body)
  = Ok (PDict [(KStr t, table_of_body body)]).
Proof.
  intros Hcr Htb Hn1 Hw1 Hn2 Hw2 Hw3 Ht Hb.
  pose proof (statement_match cr w1 tb w2 t w3 body
                Hcr Htb Hn1 Hw1 Hn2 Hw2 Hw3 Ht Hb) as Hm.
  cbv zeta in Hm.
  assert (L1 : String.length cr = 6)
    by (rewrite <- length_upper, Hcr; reflexivity).
  assert (L2 : String.length tb = 5)
    by (rewrite <- length_upper, Htb; reflexivity).
  rewrite parse_sql_schema_fold. unfold statements.
  rewrite (finditer_single _ _ _ _ Hm).
  - cbn [fold_left]. unfold add_entry, entry_of, mk_match, group.
    cbn [m_groups fst snd groups_of nth Nat.sub dict_set].
    unfold statement_text.
    replace (slice _ _ (6 + String.length w1 + 5 + String.length w2
                          + String.length t)) with t.
    2:{ symmetry.
        apply (slice_in _ (cr ++ w1 ++ tb ++ w2) t
                 (w3 ++ "(" ++ body ++ ");"));
          [ rewrite ?app_assoc_s; reflexivity
          | rewrite ?length_app_s, ?L1, ?L2; simpl; lia
          | rewrite ?length_app_s, ?L1, ?L2; simpl; lia ]. }
    replace (slice _ _ _) with body; [reflexivity|].
    symmetry.
    apply (slice_in _ (cr ++ w1 ++ tb ++ w2 ++ t ++ w3 ++ "(") body ");");
      [ rewrite ?app_assoc_s; reflexivity
      | rewrite ?length_app_s, ?L1, ?L2; simpl; lia
      | rewrite ?length_app_s, ?L1, ?L2; simpl; lia ].
  - cbn [fst]. unfold statement_text. rewrite !length_app_s, L1, L2.
    simpl. lia.
  - unfold statement_text. destruct cr; [discriminate | discriminate].
  - reflexivity.
Qed.

Lemma statement_recognised_witness :
  parse_sql_schema
    ("create" ++ nl ++ "Table  Users(Id int, primary key (Id));")
  = Ok (PDict
          [(KStr "Users",
            PDict [(KStr "columns", PDict [(KStr "Id", PStr "int")]);
                   (KStr "primary_key", PStr "Id");
                   (KStr "foreign_keys", PList [])])]).
Proof.
  refine (statement_recognised "create" nl "Table" "  " "Users" ""
            "Id int, primary key (Id)"
            eq_refl eq_refl _ eq_refl _ eq_refl eq_refl eq_refl eq_refl);
    discriminate.
Defined.

(* ================================================================= *)
(** ** Key clauses: letter case and the blank between the two words *)

Lemma not_space_upper s :
  all_chars not_space (upper s) = true -> all_chars not_space s = true.
Proof.
  unfold upper. induction s as [|c s IH]; simpl; [reflexivity|].
  intros H. apply andb_prop in H as [Hc Hs]. rewrite (IH Hs), andb_true_r.
  unfold not_space in *. now rewrite is_space_upper_char in Hc.
Qed.

Lemma upper_space_char c : is_space c = true -> upper_char c = c.
Proof. each_char c; vm_compute; congruence. Qed.

Lemma startswith_prefix p s : startswith (p ++ s) p = true.
Proof.
  induction p as [|c p IH]; simpl; [now destruct s|].
  now rewrite Ascii.eqb_refl, IH.
Qed.

Lemma pk_match_any_case pk ky ws a :
  upper pk = "PRIMARY" -> upper ky = "KEY" ->
  all_chars is_space ws = true -> is_ident a = true ->
  let i := 7 + 1 + 3 + String.length ws + 1 in
  match_here icase primary_key_re
    (pk ++ " " ++ ky ++ ws ++ "(" ++ a ++ ")") 0 []
  = Some (i + String.length a + 1, [i; i + String.length a]).
Proof.
  intros Hpk Hky Hws Ha i. apply is_ident_inv in Ha as [Ha Wa].
  unfold primary_key_re. cbn [app].
  change (")") with (")" ++ "").
  rewrite <- Hpk at 1. rewrite match_lit by now apply lit_ok_upper.
  apply match_plus_max;
    [discriminate | reflexivity | now apply (head_space_upper ky "K" "EY") |].
  rewrite <- Hky at 1. rewrite match_lit by now apply lit_ok_upper.
  apply match_star_max; [exact Hws | reflexivity |].
  change ("(" ++ a ++ ")" ++ "") with ("(" ++ (a ++ ")" ++ "")).
  rewrite (match_lit icase "(" "(") by reflexivity.
  rewrite match_group_open.
  apply match_plus_max; [exact Ha | exact Wa | reflexivity |].
  rewrite match_group_close.
  rewrite match_lit_end by reflexivity.
  rewrite !length_upper.
  assert (L1 : String.length pk = 7)
    by (rewrite <- length_upper, Hpk; reflexivity).
  assert (L2 : String.length ky = 3)
    by (rewrite <- length_upper, Hky; reflexivity).
  subst i. rewrite L1, L2. simpl. repeat f_equal; lia.
Qed.

(** The clause [PRIMARY KEY (a)] is classified as the primary key
    [a] whatever the letter case of its two words and whatever white
    space stands before the parenthesis. *)
Lemma classify_primary_key_any_case pk ky ws a :
  upper pk = "PRIMARY" -> upper ky = "KEY" ->
  all_chars is_space ws = true -> is_ident a = true ->
  classify (pk ++ " " ++ ky ++ ws ++ "(" ++ a ++ ")") = PrimaryKey (Some a).
Proof.
  intros Hpk Hky Hws Ha.
  pose proof (pk_match_any_case pk ky ws a Hpk Hky Hws Ha) as Hm.
  cbv zeta in Hm.
  assert (L1 : String.length pk = 7)
    by (rewrite <- length_upper, Hpk; reflexivity).
  assert (L2 : String.length ky = 3)
    by (rewrite <- length_upper, Hky; reflexivity).
  unfold classify.
  rewrite strip_fixed.
  - unfold is_primary_key_clause.
    rewrite !upper_app, Hpk, Hky.
    match goal with
    | |- context [startswith ("PRIMARY" ++ upper " " ++ "KEY" ++ ?x) _] =>
        change ("PRIMARY" ++ upper " " ++ "KEY" ++ x)
          with ("PRIMARY KEY" ++ x)
    end.
    rewrite startswith_prefix.
    rewrite (search_at_start _ _ _ _ Hm). simpl option_map.
    unfold mk_match, group. cbn [m_groups snd groups_of nth Nat.sub].
    do 2 f_equal.
    apply (slice_in _ (pk ++ " " ++ ky ++ ws ++ "(") a ")");
      [ rewrite ?app_assoc_s; reflexivity
      | rewrite ?length_app_s, ?L1, ?L2; simpl; lia
      | rewrite ?length_app_s, ?L1, ?L2; simpl; lia ].
  - now apply (head_space_upper pk "P" "RIMARY").
  - replace (pk ++ " " ++ ky ++ ws ++ "(" ++ a ++ ")")
      with ((pk ++ " " ++ ky ++ ws ++ "(" ++ a) ++ ")")
      by (rewrite ?app_assoc_s; reflexivity).
    now rewrite last_ok_app.
Qed.

Lemma startswith_app p s x : startswith (p ++ s) (p ++ x) = startswith s x.
Proof.
  induction p as [|c p IH]; simpl; [reflexivity|].
  now rewrite Ascii.eqb_refl, IH.
Qed.

Lemma not_one_blank ws rest :
  ws <> "" -> ws <> " " -> all_chars is_space ws = true ->
  startswith (upper (ws ++ rest)) " KEY" = false.
Proof.
  intros Hn Hb Hs. destruct ws as [|c ws]; [congruence|].
  simpl in Hs. apply andb_prop in Hs as [Hc Hs].
  unfold upper. simpl. rewrite (upper_space_char c Hc).
  destruct (Ascii.eqb_spec c " ") as [->|]; [|reflexivity]. simpl.
  destruct ws as [|d ws]; [congruence|].
  simpl in Hs. apply andb_prop in Hs as [Hd _].
  simpl. rewrite (upper_space_char d Hd).
  destruct (Ascii.eqb_spec d "K") as [->|]; [discriminate | reflexivity].
Qed.

(** A key word followed by white space other than one blank makes
    the clause a column. *)
Lemma classify_key_words_apart kw ws rest :
  upper kw = "PRIMARY" \/ upper kw = "FOREIGN" ->
  ws <> "" -> ws <> " " -> all_chars is_space ws = true ->
  head_ok not_space rest = true -> last_ok not_space rest = true ->
  classify (kw ++ ws ++ rest) = Column kw rest.
Proof.
  intros Hkw Hn Hb Hs Hh Hl.
  assert (Hw : kw <> "" /\ all_chars not_space kw = true
               /\ head_ok is_space (kw ++ ws ++ rest) = false).
  { destruct Hkw as [E|E]; (split; [|split]);
      try (intros ->; discriminate);
      try (apply not_space_upper; now rewrite E).
    - now apply (head_space_upper kw "P" "RIMARY").
    - now apply (head_space_upper kw "F" "OREIGN"). }
  destruct Hw as (Hkn & Hks & Hhead).
  assert (Hrest : rest <> "") by (intros ->; discriminate).
  unfold classify. rewrite strip_fixed; [|exact Hhead|].
  2:{ rewrite <- !app_assoc_s, last_ok_app_r; assumption. }
  assert (Hp : is_primary_key_clause (kw ++ ws ++ rest) = false).
  { unfold is_primary_key_clause. rewrite upper_app.
    destruct Hkw as [E|E]; rewrite E; [|reflexivity].
    change "PRIMARY KEY" with ("PRIMARY" ++ " KEY").
    rewrite startswith_app. now apply not_one_blank. }
  assert (Hf : is_foreign_key_clause (kw ++ ws ++ rest) = false).
  { unfold is_foreign_key_clause. rewrite upper_app.
    destruct Hkw as [E|E]; rewrite E; [reflexivity|].
    change "FOREIGN KEY" with ("FOREIGN" ++ " KEY").
    rewrite startswith_app. now apply not_one_blank. }
  rewrite Hp, Hf. now rewrite split_none_1_two.
Qed.

(* ================================================================= *)
(** ** A column defined more than once *)

Lemma after_clauses_columns_fold : forall defs st,
  t_columns (after_clauses st defs)
  = fold_left (fun d e => dict_set d (KStr (fst e)) (PStr (snd e)))
              (columns_of defs) (t_columns st).
Proof.
  induction defs as [|c defs IH]; intros st; [reflexivity|].
  rewrite after_clauses_cons, IH. cbn [columns_of]. unfold column_of.
  destruct (classify c) as [[col|] | [d|] | name type | ]; reflexivity.
Qed.

(* ================================================================= *)
(** ** The formatter on any schema *)

Lemma for_each_text {A : Type} (body : string -> A -> result string)
    (g : A -> string) :
  (forall acc x, body acc x = Ok (acc ++ g x)) ->
  forall l acc,
    for_each l acc body = Ok (acc ++ String.concat "" (map g l)).
Proof.
  intros Hb. induction l as [|x l IH]; intros acc; simpl.
  - now rewrite app_nil_r_s.
  - rewrite Hb. simpl. rewrite IH, app_assoc_s. destruct l; [|reflexivity].
    simpl. now rewrite app_nil_r_s.
Qed.

(** The formatter adds to the text the text of the table, which
    depends on the entry alone. *)
Lemma format_table_text formatted entry :
  format_table formatted entry
  = (t <- table_text entry ;; Ok (formatted ++ t)).
Proof.
  destruct entry as [name v]. unfold table_text. cbn [fst snd].
  destruct v as [| | | | |info]; cbn [table_body bind format_table];
    try (rewrite ?app_assoc_s; reflexivity).
  unfold columns_block, primary_key_line, foreign_keys_block, getitem, dict_mem.
  destruct (dict_get info (KStr "columns")) as [cols|] eqn:Ec;
    [destruct cols as [| | | | |cs]|]; cbn [bind items];
    try reflexivity;
    try (rewrite (for_each_text _
                    (fun col : pykey * pyval =>
                       "  - " ++ key_str (fst col) ++ ": "
                              ++ py_str (snd col) ++ nl))
           by (intros acc [k x]; reflexivity));
    cbn [bind];
    (destruct (dict_get info (KStr "primary_key")) as [pk|] eqn:Ep;
     destruct (dict_get info (KStr "foreign_keys")) as [fks|] eqn:Ef;
     cbn [bind];
     try destruct (truthy pk); try destruct (truthy fks); cbn [bind];
     try destruct (iterate fks) as [l|e]; cbn [bind];
     rewrite ?for_each_append; cbn [bind];
     rewrite ?app_assoc_s, ?app_nil_r_s; reflexivity).
Qed.

Lemma format_tables_text : forall tables formatted,
  for_each tables formatted format_table
  = (texts <- tables_text tables ;; Ok (formatted ++ texts)).
Proof.
  induction tables as [|entry tables IH]; intros formatted; simpl.
  - now rewrite app_nil_r_s.
  - rewrite format_table_text.
    destruct (table_text entry) as [t|e]; simpl; [|reflexivity].
    rewrite IH.
    destruct (tables_text tables) as [texts|e]; simpl; [|reflexivity].
    now rewrite app_assoc_s.
Qed.

Lemma format_schema_text tables :
  format_schema_for_prompt (PDict tables)
  = (texts <- tables_text tables ;; Ok (header ++ texts)).
Proof. unfold format_schema_for_prompt. apply format_tables_text. Qed.

Lemma table_body_cases v :
  (formattable v = true /\ exists b, table_body v = Ok b)
  \/ (formattable v = false
      /\ exists e, table_body v = Raise e /\ attribute_or_type_error e).
Proof.
  unfold attribute_or_type_error.
  destruct v as [| | | | |info]; try (left; split; [reflexivity | eexists; reflexivity]).
  unfold table_body, formattable, columns_block, foreign_keys_block.
  destruct (dict_get info (KStr "columns")) as [cols|];
    [destruct cols as [| | | | |cs]|]; cbn [items bind andb];
    try (right; split; [reflexivity | eexists; split; [reflexivity | now left]]);
    (destruct (dict_get info (KStr "foreign_keys")) as [fks|];
     [|left; split; [reflexivity | eexists; reflexivity]];
     destruct (truthy fks); cbn [negb orb bind];
     [|left; split; [reflexivity | eexists; reflexivity]];
     destruct fks as [| | | | |]; cbn [iterable iterate bind];
     first [ left; split; [reflexivity | eexists; reflexivity]
           | right; split;
             [reflexivity | eexists; split; [reflexivity | now right]] ]).
Qed.

Lemma tables_text_cases : forall tables,
  (forallb formattable (map snd tables) = true
   /\ exists texts, tables_text tables = Ok texts)
  \/ (forallb formattable (map snd tables) = false
      /\ exists e, tables_text tables = Raise e /\ attribute_or_type_error e).
Proof.
  induction tables as [|[name v] tables IH]; simpl.
  - left. split; [reflexivity | eexists; reflexivity].
  - unfold table_text. cbn [fst snd].
    destruct (table_body_cases v) as [[Hv [b Hb]] | [Hv (e & He & Hc)]];
      rewrite Hv, Hb || rewrite Hv, He; cbn [bind andb].
    + destruct IH as [[Ht [texts Hx]] | [Ht (e & He & Hc)]];
        rewrite Ht, Hx || rewrite Ht, He; cbn [bind].
      * left. split; [reflexivity | eexists; reflexivity].
      * right. split; [reflexivity | eauto].
    + right. split; [reflexivity | eauto].
Qed.

(** X8. The formatter returns a text exactly when, in every table
    entry that is a dictionary, the value at ['columns'], if there is
    one, is a dictionary, and the value at ['foreign_keys'], if there
    is one and it is true, can be iterated; otherwise it raises
    [AttributeError] or [TypeError].  A schema that is not a
    dictionary gives the header alone. *)
Theorem formatter_returns_iff schema :
  ((exists out, format_schema_for_prompt schema = Ok out)
   <-> schema_formattable schema = true)
  /\ (forall e, format_schema_for_prompt schema = Raise e ->
                attribute_or_type_error e)
  /\ ((forall tables, schema <> PDict tables) ->
      format_schema_for_prompt schema = Ok header).
Proof.
  destruct schema as [| | | | |tables];
    try (split; [split; [reflexivity | eexists; reflexivity]
                | split; [discriminate | reflexivity]]).
  rewrite format_schema_text. unfold schema_formattable.
  assert (Hd : (forall tables0, PDict tables <> PDict tables0) -> False)
    by (intros H; now apply (H tables)).
  destruct (tables_text_cases tables) as [[Ht [x Hx]] | [Ht (e & He & Hc)]];
    rewrite Ht, Hx || rewrite Ht, He; cbn [bind].
  - split; [split; [reflexivity | eexists; reflexivity] |].
    split; [discriminate | intros H; destruct (Hd H)].
  - split; [split; [intros [out H]; discriminate | discriminate]|].
    split; [|intros H; destruct (Hd H)].
    intros e' H. now inversion H; subst.
Qed.

Lemma formatter_returns_iff_witness :
  format_schema_for_prompt (PStr "users(id, name)")
  = Ok ("DATABASE SCHEMA:" ++ nl ++ nl).
Proof.
  refine (proj2 (proj2 (formatter_returns_iff (PStr "users(id, name)")))
            _).
  intros tables H. discriminate H.
Defined.

Lemma tables_text_app : forall t1 t2,
  tables_text (t1 ++ t2)
  = (x1 <- tables_text t1 ;; x2 <- tables_text t2 ;; Ok (x1 ++ x2)).
Proof.
  induction t1 as [|entry t1 IH]; intros t2; simpl.
  - now destruct (tables_text t2).
  - destruct (table_text entry) as [t|e]; simpl; [|reflexivity].
    rewrite IH. destruct (tables_text t1) as [x1|e]; simpl; [|reflexivity].
    destruct (tables_text t2) as [x2|e]; simpl; [|reflexivity].
    now rewrite app_assoc_s.
Qed.

(** X9. The text of a schema is the header followed by the texts of
    its tables in the schema's order, and the text of a table does not
    depend on the tables around it: the text of two schemas put one
    after the other is the header followed by what each of them has
    after its own header. *)
Theorem format_schema_app t1 t2 x1 x2 :
  format_schema_for_prompt (PDict t1) = Ok (header ++ x1) ->
  format_schema_for_prompt (PDict t2) = Ok (header ++ x2) ->
  format_schema_for_prompt (PDict (t1 ++ t2)) = Ok (header ++ x1 ++ x2).
Proof.
  rewrite !format_schema_text, tables_text_app.
  destruct (tables_text t1) as [y1|e]; simpl; [|discriminate].
  destruct (tables_text t2) as [y2|e]; simpl; [|discriminate].
  intros H1 H2. inversion H1. inversion H2. now subst.
Qed.

Lemma format_schema_app_witness :
  format_schema_for_prompt
    (PDict ([(KStr "a", PDict [(KStr "primary_key", PStr "id")])]
              ++ [(KStr "b", PNone)]))
  = Ok (header ++ ("Table: a" ++ nl ++ "Primary Key: id" ++ nl ++ nl)
               ++ ("Table: b" ++ nl ++ nl)).
Proof.
  exact (format_schema_app
           [(KStr "a", PDict [(KStr "primary_key", PStr "id")])]
           [(KStr "b", PNone)]
           ("Table: a" ++ nl ++ "Primary Key: id" ++ nl ++ nl)
           ("Table: b" ++ nl ++ nl) eq_refl eq_refl).
Defined.

Lemma Forall_value_dict_set (Q : pyval -> Prop) (d : dict) k v :
  Forall (fun kv => Q (snd kv)) d -> Q v ->
  Forall (fun kv => Q (snd kv)) (dict_set d k v).
Proof.
  intros Hd Hv. induction Hd as [|[k' x] d Hx Hd IH]; simpl.
  - constructor; [exact Hv | constructor].
  - destruct (key_eqb k' k); constructor; auto.
Qed.

Lemma formattable_table_dict st : formattable (table_dict st) = true.
Proof.
  unfold formattable, table_dict. cbn [dict_get key_eqb String.eqb
    Ascii.eqb Bool.eqb andb iterable].
  simpl. now destruct (t_foreign_keys st).
Qed.

Lemma extracted_tables_formattable : forall ms (schema : dict),
  Forall (fun kv => formattable (snd kv) = true) schema ->
  Forall (fun kv => formattable (snd kv) = true) (fold_left add_entry ms schema).
Proof.
  induction ms as [|m ms IH]; intros schema H; simpl; [exact H|].
  apply IH. unfold add_entry.
  apply (Forall_value_dict_set (fun v => formattable v = true)); auto.
  apply formattable_table_dict.
Qed.

Lemma forallb_Forall_snd (d : dict) :
  Forall (fun kv => formattable (snd kv) = true) d ->
  forallb formattable (map snd d) = true.
Proof.
  induction 1 as [|kv d H _ IH]; simpl; [reflexivity|]. now rewrite H, IH.
Qed.

(** X10. What the extractor returns, for any text, the formatter turns
    into a text that begins with the header: it raises nothing. *)
Theorem extracted_schema_formats sql_statements :
  exists schema texts,
    parse_sql_schema sql_statements = Ok schema
    /\ format_schema_for_prompt schema = Ok (header ++ texts).
Proof.
  rewrite parse_sql_schema_fold.
  set (d := fold_left add_entry (statements sql_statements) []).
  assert (Hf : forallb formattable (map snd d) = true).
  { apply forallb_Forall_snd, extracted_tables_formattable. constructor. }
  destruct (tables_text_cases d) as [[_ [x Hx]] | [Ht _]]; [|congruence].
  exists (PDict d), x. split; [reflexivity|].
  rewrite format_schema_text, Hx. reflexivity.
Qed.

(* ================================================================= *)
(** ** A statement needs its [);] *)

Lemma contains_suffix n : forall pre t,
  contains t n = true -> contains (pre ++ t) n = true.
Proof.
  induction pre as [|c pre IH]; intros t H; [exact H|].
  change (String c pre ++ t) with (String c (pre ++ t)).
  cbn [contains]. rewrite (IH t H). apply orb_true_r.
Qed.

Lemma greedy_suffix ok k : forall s pos o,
  greedy ok k s pos = Some o ->
  exists pre t p, s = pre ++ t /\ k t p = Some o.
Proof.
  induction s as [|c s IH]; simpl; intros pos o H.
  - exists "", "", pos. auto.
  - destruct (ok c).
    + destruct (greedy ok k s (S pos)) as [r|] eqn:E.
      * inversion H; subst. destruct (IH _ _ E) as (pre & t & p & -> & Hk).
        exists (String c pre), t, p. auto.
      * exists "", (String c s), pos. auto.
    + exists "", (String c s), pos. auto.
Qed.

Lemma lazy_suffix ok k : forall s pos o,
  lazy ok k s pos = Some o ->
  exists pre t p, s = pre ++ t /\ k t p = Some o.
Proof.
  induction s as [|c s IH]; simpl; intros pos o H.
  - destruct (k "" pos) eqn:E; [|discriminate]. inversion H; subst.
    exists "", "", pos. auto.
  - destruct (k (String c s) pos) eqn:E.
    + inversion H; subst. exists "", (String c s), pos. auto.
    + destruct (ok c); [|discriminate].
      destruct (IH _ _ H) as (pre & t & p & -> & Hk).
      exists (String c pre), t, p. auto.
Qed.

Lemma needs_terminator_lit f : needs_terminator f (lit ");").
Proof.
  intros s pos marks o. cbn [lit map list_ascii_of_string match_here].
  destruct s as [|c s]; [discriminate|]. rewrite chr_paren_close.
  destruct (Ascii.eqb_spec c ")") as [->|]; [|discriminate].
  destruct s as [|d s]; [discriminate|]. rewrite chr_semicolon.
  destruct (Ascii.eqb_spec d ";") as [->|]; [|discriminate].
  intros _. change (String ")" (String ";" s)) with (");" ++ s).
  change (contains (");" ++ s) ");")
    with (startswith (");" ++ s) ");" || contains (String ";" s) ");").
  now rewrite startswith_prefix.
Qed.

Lemma needs_terminator_cons f n r :
  needs_terminator f r -> needs_terminator f (n :: r).
Proof.
  intros Hr s pos marks o H.
  destruct n as [[| | |] a| |]; cbn [match_here] in H.
  - destruct s as [|c s]; [discriminate|].
    destruct (atom_matches f a c); [|discriminate].
    apply Hr in H. apply (contains_suffix _ (String c "")), H.
  - destruct s as [|c s]; [discriminate|].
    destruct (atom_matches f a c); [|discriminate].
    apply greedy_suffix in H as (pre & t & p & -> & Hk). apply Hr in Hk.
    apply (contains_suffix _ (String c pre)), Hk.
  - apply greedy_suffix in H as (pre & t & p & -> & Hk). apply Hr in Hk.
    now apply contains_suffix.
  - apply lazy_suffix in H as (pre & t & p & -> & Hk). apply Hr in Hk.
    now apply contains_suffix.
  - now apply Hr in H.
  - now apply Hr in H.
Qed.

Lemma needs_terminator_app f (pre r : regex) :
  needs_terminator f r -> needs_terminator f (pre ++ r)%list.
Proof.
  intros H. induction pre as [|n pre IH]; [exact H|].
  now apply needs_terminator_cons.
Qed.

Lemma create_table_needs_terminator :
  needs_terminator icase_dotall create_table_re.
Proof.
  unfold create_table_re.
  repeat (apply needs_terminator_app). apply needs_terminator_lit.
Qed.

Lemma finditer_nothing f r subject : forall s pos skip,
  (forall pre t p, s = pre ++ t -> match_here f r t p [] = None) ->
  finditer_from f r subject s pos skip = [].
Proof.
  induction s as [|c s IH]; intros pos skip H.
  - destruct skip; [|reflexivity]. cbn [finditer_from].
    now rewrite (H "" "" pos eq_refl).
  - assert (Hs : forall pre t p, s = pre ++ t -> match_here f r t p [] = None).
    { intros pre t p ->. apply (H (String c pre)). reflexivity. }
    destruct skip; cbn [finditer_from].
    + rewrite (H "" (String c s) pos eq_refl). now apply IH.
    + now apply IH.
Qed.

(** X11. A text in which [);] does not occur has no statement: the
    result is the empty schema; a [CREATE TABLE] that is not closed by
    [);] is passed over without an error. *)
Theorem unterminated_statement_ignored sql_statements :
  contains sql_statements ");" = false ->
  parse_sql_schema sql_statements = Ok (PDict []).
Proof.
  intros H. rewrite parse_sql_schema_fold. unfold statements, finditer.
  rewrite finditer_nothing; [reflexivity|].
  intros pre t p ->.
  destruct (match_here icase_dotall create_table_re t p []) as [o|] eqn:E;
    [|reflexivity].
  apply create_table_needs_terminator in E.
  apply (contains_suffix _ pre) in E. congruence.
Qed.

Lemma unterminated_statement_ignored_witness :
  parse_sql_schema "CREATE TABLE t (a INT, b INT) ;" = Ok (PDict []).
Proof.
  exact (unterminated_statement_ignored "CREATE TABLE t (a INT, b INT) ;"
           eq_refl).
Defined.

(* ================================================================= *)
(** ** A comma inside a type *)

Lemma no_space_no_prefix : forall p s,
  all_chars not_space s = true -> has_char " " p = true ->
  startswith (upper s) p = false.
Proof.
  induction p as [|b p IH]; intros s Hs Hp; [discriminate|].
  destruct s as [|a s]; [reflexivity|].
  simpl in Hs. apply andb_prop in Hs as [Ha Hs].
  unfold upper. simpl. fold (upper s).
  simpl in Hp. destruct (Ascii.eqb_spec b " ") as [->|Hb].
  - unfold not_space in Ha. rewrite <- is_space_upper_char in Ha.
    destruct (Ascii.eqb_spec (upper_char a) " ") as [E|]; [|reflexivity].
    rewrite E in Ha. discriminate.
  - simpl in Hp. rewrite (IH s Hs Hp). apply andb_false_r.
Qed.

Lemma last_ok_all ok s :
  s <> "" -> all_chars ok s = true -> last_ok ok s = true.
Proof.
  intros Hn Hs. induction s as [|c s IH]; [congruence|]. simpl in *.
  apply andb_prop in Hs as [Hc Hs]. destruct s as [|d s]; [exact Hc|].
  apply IH; [discriminate | exact Hs].
Qed.

Lemma classify_one_word s :
  s <> "" -> all_chars not_space s = true ->
  classify s = Column s "VARCHAR(255)".
Proof.
  intros Hn Hs. unfold classify.
  assert (Hl : last_ok not_space s = true) by now apply last_ok_all.
  rewrite strip_fixed by auto using word_head_not_space.
  unfold is_primary_key_clause, is_foreign_key_clause.
  rewrite !no_space_no_prefix by auto.
  now rewrite split_none_1_word.
Qed.

Lemma all_chars_app ok a b :
  all_chars ok (a ++ b) = all_chars ok a && all_chars ok b.
Proof.
  induction a as [|c a IH]; simpl; [reflexivity|].
  now rewrite IH, andb_assoc.
Qed.

Lemma last_ok_word w :
  w <> "" -> all_chars is_word w = true -> last_ok not_space w = true.
Proof. intros Hn Hw. apply last_ok_all; auto using word_chars_not_space. Qed.

(** The body [n ty(p,q)] is cut at the comma inside the parentheses:
    it gives the column [n] with the type [ty(p] and the column [q)]. *)
Lemma table_of_body_comma_in_type n ty p q :
  column_name n = true ->
  is_ident ty = true -> is_ident p = true -> is_ident q = true ->
  table_of_body (n ++ " " ++ ty ++ "(" ++ p ++ "," ++ q ++ ")")
  = table_dict
      (TableState [(KStr n, PStr (ty ++ "(" ++ p));
                   (KStr (q ++ ")"), PStr "VARCHAR(255)")]
                  PNone []).
Proof.
  intros Hn Hty Hp Hq.
  pose proof (column_name_inv n Hn) as (Hnn & Wn & _).
  apply is_ident_inv in Hty as [Htn Wt], Hp as [Hpn Wp], Hq as [Hqn Wq].
  assert (Hsimple : simple_type (ty ++ "(" ++ p) = true).
  { unfold simple_type.
    rewrite head_ok_app by assumption.
    replace (ty ++ "(" ++ p) with ((ty ++ "(") ++ p) at 1
      by now rewrite app_assoc_s.
    rewrite last_ok_app_r by assumption.
    rewrite (last_ok_word p) by assumption.
    rewrite !has_char_app.
    rewrite !(word_has_no "," ty), !(word_has_no "," p),
            !(word_has_no ";" ty), !(word_has_no ";" p) by auto.
    destruct ty as [|c ty]; [congruence|]. simpl in *.
    apply andb_prop in Wt as [Hc _]. unfold not_space.
    now rewrite (word_not_space c Hc). }
  assert (Hcut : split_on ","
                   (n ++ " " ++ ty ++ "(" ++ p ++ "," ++ q ++ ")")
                 = [n ++ " " ++ ty ++ "(" ++ p; q ++ ")"]).
  { replace (n ++ " " ++ ty ++ "(" ++ p ++ "," ++ q ++ ")")
      with ((n ++ " " ++ ty ++ "(" ++ p) ++ String "," (q ++ ")"))
      by (rewrite !app_assoc_s; reflexivity).
    rewrite split_on_cut, split_on_none; try reflexivity.
    - rewrite has_char_app, (word_has_no "," q) by auto. reflexivity.
    - rewrite !has_char_app.
      rewrite (word_has_no "," n), (word_has_no "," ty),
              (word_has_no "," p) by auto.
      reflexivity. }
  assert (Hword : all_chars not_space (q ++ ")") = true).
  { rewrite all_chars_app, (word_chars_not_space q Wq). reflexivity. }
  assert (Hne : q ++ ")" <> "") by (destruct q; discriminate).
  unfold table_of_body. rewrite Hcut. cbn [map].
  unfold after_clauses. cbn [map fold_left].
  rewrite !classify_strip.
  rewrite (classify_column n (ty ++ "(" ++ p)) by assumption.
  rewrite (classify_one_word (q ++ ")")) by assumption.
  cbn [apply_clause t_columns t_primary_key t_foreign_keys dict_set key_eqb].
  destruct (String.eqb_spec n (q ++ ")")) as [E|]; [|reflexivity].
  exfalso. assert (Hc : has_char ")" n = false) by now apply word_has_no.
  rewrite E, has_char_app in Hc. simpl in Hc.
  now rewrite orb_true_r in Hc.
Qed.

(* ================================================================= *)
(** ** The loader on a file that exists *)

(** X12. For a file that exists and whose extension, in lower case,
    has a decoder, the loader gives what reading the file and then
    decoding its text give: a decoded value as it is, and an exception
    of the reading or of the decoding as it is, not wrapped. *)
Theorem loader_adds_nothing w file_path decode :
  path_exists w file_path = true ->
  decoder_for w (lower (path_suffix w file_path)) = Some decode ->
  snd (load_schema_from_file w file_path)
  = (text <- read_file w file_path ;; decode text).
Proof.
  intros He Hd. unfold load_schema_from_file, load_body. rewrite He.
  unfold decoder_for in Hd. cbn [negb].
  destruct (String.eqb (lower (path_suffix w file_path)) ".json").
  { inversion Hd; subst. unfold step.
    destruct (read_file w file_path) as [text|e]; [|reflexivity].
    cbn [bind]. destruct (json_load w text); reflexivity. }
  destruct (existsb (String.eqb (lower (path_suffix w file_path)))
              [".yaml"; ".yml"]).
  { inversion Hd; subst. unfold step.
    destruct (read_file w file_path) as [text|e]; [|reflexivity].
    cbn [bind]. destruct (yaml_safe_load w text); reflexivity. }
  destruct (String.eqb (lower (path_suffix w file_path)) ".sql");
    [|discriminate].
  inversion Hd; subst. unfold step.
  destruct (read_file w file_path) as [text|e]; [|reflexivity].
  cbn [bind]. destruct (parse_sql_schema text); reflexivity.
Qed.

Lemma loader_adds_nothing_witness :
  snd (load_schema_from_file (world_of [("Schema.YML", "{}")]) "Schema.YML")
  = Ok (PDict [])
  /\ snd (load_schema_from_file (world_of [("bad.json", "{")]) "bad.json")
     = Raise (Exn (OtherError "DecodeError") "cannot decode").
Proof.
  split.
  - exact (loader_adds_nothing (world_of [("Schema.YML", "{}")]) "Schema.YML"
             _ eq_refl eq_refl).
  - exact (loader_adds_nothing (world_of [("bad.json", "{")]) "bad.json"
             _ eq_refl eq_refl).
Defined.

(** X13. The loader writes an error to the log exactly when it raises
    for a file that exists: then it writes one, with the text of the
    exception it raises; for a missing file and on success it writes
    none. *)
Theorem loader_error_log w file_path :
  filter is_log_error (fst (load_schema_from_file w file_path))
  = if path_exists w file_path then
      match snd (load_schema_from_file w file_path) with
      | Raise e => [LogError ("Error loading schema from file: " ++ exn_msg e)]
      | Ok _ => []
      end
    else [].
Proof.
  unfold load_schema_from_file, load_body.
  destruct (path_exists w file_path); [|reflexivity]. cbn [negb].
  destruct (String.eqb (lower (path_suffix w file_path)) ".json").
  { unfold step. destruct (read_file w file_path) as [text|e]; [|reflexivity].
    destruct (json_load w text); reflexivity. }
  destruct (existsb (String.eqb (lower (path_suffix w file_path)))
              [".yaml"; ".yml"]).
  { unfold step. destruct (read_file w file_path) as [text|e]; [|reflexivity].
    destruct (yaml_safe_load w text); reflexivity. }
  destruct (String.eqb (lower (path_suffix w file_path)) ".sql");
    [|reflexivity].
  unfold step. destruct (read_file w file_path) as [text|e]; [|reflexivity].
  destruct (parse_sql_schema text); reflexivity.
Qed.

(* ================================================================= *)
(** ** The two requests and the pipeline *)

Lemma unformattable_raises schema :
  schema_formattable schema = false ->
  exists e, format_schema_for_prompt schema = Raise e.
Proof.
  destruct schema as [| | | | |tables]; try discriminate.
  unfold schema_formattable. intros H. rewrite format_schema_text.
  destruct (tables_text_cases tables) as [[Ht _] | [_ (e & He & _)]];
    [congruence|].
  rewrite He. exists e. reflexivity.
Qed.

Lemma valid_is_truthy schema :
  validate_schema schema = true -> truthy schema = true.
Proof. destruct schema as [| | | | |[|entry rest]]; simpl; congruence. Qed.

(** X14. A schema that passes the validator but that the formatter
    cannot format makes both requests fail with their [RuntimeError]
    before the client is called: the client is as it was. *)
Theorem malformed_schema_stops_requests {C : Type} (ai : G.openai C) (c : C)
    prompt schema :
  validate_schema schema = true ->
  schema_formattable schema = false ->
  G.improve_prompt ai c prompt schema
  = (c, Raise (G.runtime_error "Erro ao melhorar prompt."))
  /\ G.generate_sql_from_prompt ai c prompt schema
     = (c, Raise (G.runtime_error "Erro ao gerar SQL.")).
Proof.
  intros Hv Hf. destruct (unformattable_raises schema Hf) as [e He].
  unfold G.improve_prompt, G.generate_sql_from_prompt, G.schema_context_of.
  rewrite (valid_is_truthy _ Hv), Hv, He. split; reflexivity.
Qed.

Lemma malformed_schema_stops_requests_witness :
  G.improve_prompt (constant_client (PStr "SELECT 1")) 0 "how many users?"
    columns_as_list_schema
  = (0, Raise (G.runtime_error "Erro ao melhorar prompt."))
  /\ G.generate_sql_from_prompt (constant_client (PStr "SELECT 1")) 0
       "how many users?" columns_as_list_schema
     = (0, Raise (G.runtime_error "Erro ao gerar SQL.")).
Proof.
  exact (malformed_schema_stops_requests (constant_client (PStr "SELECT 1")) 0
           "how many users?" columns_as_list_schema eq_refl eq_refl).
Defined.

(** X15. A schema the validator rejects counts as no schema: both
    requests are then the same as with [None]. *)
Theorem rejected_schema_is_no_schema {C : Type} (ai : G.openai C) (c : C)
    prompt schema :
  validate_schema schema = false ->
  G.improve_prompt ai c prompt schema = G.improve_prompt ai c prompt PNone
  /\ G.generate_sql_from_prompt ai c prompt schema
     = G.generate_sql_from_prompt ai c prompt PNone.
Proof.
  intros Hv.
  unfold G.improve_prompt, G.generate_sql_from_prompt, G.schema_context_of.
  rewrite Hv, andb_false_r. split; reflexivity.
Qed.

Lemma rejected_schema_is_no_schema_witness :
  G.improve_prompt echo_client [] "q" (PStr "users(id)")
  = G.improve_prompt echo_client [] "q" PNone.
Proof.
  exact (proj1 (rejected_schema_is_no_schema echo_client [] "q"
                  (PStr "users(id)") eq_refl)).
Defined.

(** X16. With a path given, the pipeline works on the schema loaded
    from the file and not on the schema it was passed; when loading
    raises, that exception comes out as it is and the client is not
    called. *)
Theorem pipeline_file_first {C : Type} w (ai : G.openai C) (c : C)
    prompt schema path :
  path <> "" ->
  G.pipeline_generate_sql w ai c prompt schema (Some path)
  = match snd (load_schema_from_file w path) with
    | Ok loaded => G.pipeline_generate_sql w ai c prompt loaded None
    | Raise e => (c, Raise e)
    end.
Proof.
  intros Hp. unfold G.pipeline_generate_sql.
  apply String.eqb_neq in Hp. rewrite Hp. cbn [negb].
  destruct (snd (load_schema_from_file w path)); reflexivity.
Qed.

Lemma pipeline_file_first_witness :
  G.pipeline_generate_sql (world_of []) (constant_client (PStr "SELECT 1")) 0
    "how many users?" example_schema (Some "missing.sql")
  = (0, Raise (Exn FileNotFoundError "Schema file not found: missing.sql")).
Proof.
  refine (pipeline_file_first (world_of []) (constant_client (PStr "SELECT 1"))
            0 "how many users?" example_schema "missing.sql" _).
  discriminate.
Defined.

(** X17. When both requests are answered with a text, the pipeline
    sends the first answer, trimmed, as the user message of the second
    request, with the same schema context, and returns the second
    answer, trimmed. *)
Theorem pipeline_chains_requests {C : Type} w (ai : G.openai C) (c c1 c2 : C)
    prompt schema context answer1 answer2 :
  G.schema_context_of schema = Ok context ->
  G.chat_content ai c
    (G.Request "gpt-4.1" (G.with_context G.improve_system_message context)
       prompt)
  = (c1, Ok (PStr answer1)) ->
  G.chat_content ai c1
    (G.Request "gpt-4.1" (G.with_context G.generate_system_message context)
       (strip answer1))
  = (c2, Ok (PStr answer2)) ->
  G.pipeline_generate_sql w ai c prompt schema None
  = (c2, Ok (strip answer2)).
Proof.
  intros Hc H1 H2.
  unfold G.pipeline_generate_sql, G.improve_prompt, G.generate_sql_from_prompt.
  rewrite Hc, H1. cbn [bind G.content_strip]. now rewrite H2.
Qed.

Lemma pipeline_chains_requests_witness :
  G.pipeline_generate_sql (world_of []) echo_client [] " count users " PNone
    None
  = ([G.Request "gpt-4.1" G.generate_system_message "count users";
      G.Request "gpt-4.1" G.improve_system_message " count users "],
     Ok "count users").
Proof.
  exact (pipeline_chains_requests (world_of []) echo_client [] _ _
           " count users " PNone "" "   count users  " "  count users "
           eq_refl eq_refl eq_refl).
Defined.

(** X18. The pipeline raises nothing but the [RuntimeError] of one of
    its two requests or what loading the file raised. *)
Theorem pipeline_raises_only {C : Type} w (ai : G.openai C) (c : C)
    prompt schema schema_file_path e :
  snd (G.pipeline_generate_sql w ai c prompt schema schema_file_path)
  = Raise e ->
  e = G.runtime_error "Erro ao melhorar prompt."
  \/ e = G.runtime_error "Erro ao gerar SQL."
  \/ exists path, schema_file_path = Some path
                  /\ snd (load_schema_from_file w path) = Raise e.
Proof.
  unfold G.pipeline_generate_sql.
  set (loaded := match schema_file_path with
                 | Some path =>
                     if negb (String.eqb path "")
                     then snd (load_schema_from_file w path)
                     else Ok schema
                 | None => Ok schema
                 end).
  destruct loaded as [s|e0] eqn:El.
  - unfold G.improve_prompt, G.generate_sql_from_prompt.
    destruct (G.schema_context_of s) as [ctx|e1]; cbn [snd].
    + destruct (G.chat_content ai c _) as [c1 r1].
      destruct (content <- r1;; G.content_strip content) as [improved|e1];
        cbn [snd].
      * destruct (G.chat_content ai c1 _) as [c2 r2].
        destruct (content <- r2;; G.content_strip content); cbn [snd];
          intros H; inversion H; auto.
      * intros H; inversion H; auto.
    + intros H; inversion H; auto.
  - cbn [snd]. intros H. inversion H; subst. right. right.
    subst loaded. destruct schema_file_path as [path|]; [|discriminate].
    destruct (negb (String.eqb path "")); [|discriminate]. eauto.
Qed.

Lemma pipeline_raises_only_witness :
  let e := G.runtime_error "Erro ao melhorar prompt." in
  e = G.runtime_error "Erro ao melhorar prompt."
  \/ e = G.runtime_error "Erro ao gerar SQL."
  \/ exists path, @None string = Some path
                  /\ snd (load_schema_from_file (world_of []) path) = Raise e.
Proof.
  exact (pipeline_raises_only (world_of []) (constant_client PNone) 0
           "how many users?" PNone None
           (G.runtime_error "Erro ao melhorar prompt.") eq_refl).
Defined.

(* ================================================================= *)
(** ** The two routes *)

(** X19. Both routes raise nothing: they answer with a dictionary that
    has the one key ["SQL"], or with one that has the one key
    ["error"] and a text at it. *)
Theorem routes_always_answer rw payload payload_with_file :
  let answered (r : result pyval) :=
    (exists sql, r = Ok (PDict [(KStr "SQL", sql)]))
    \/ (exists msg, r = Ok (PDict [(KStr "error", PStr msg)])) in
  answered (E.generate_sql rw payload)
  /\ answered (E.generate_sql_with_file rw payload_with_file).
Proof.
  cbv zeta. unfold E.generate_sql, E.generate_sql_with_file. split.
  - destruct (E.generate_sql_with_rewriting rw _ _ _) as [res|e];
      cbn [bind E.answer]; [|right; eauto].
    destruct (getitem res "generated_sql") as [sql|e];
      cbn [bind E.answer]; [left | right]; eauto.
  - destruct (E.load_schema_and_content_from_file rw _) as [[s d]|e];
      cbn [bind E.answer]; [|right; eauto].
    destruct (E.generate_sql_with_rewriting rw _ _ _) as [res|e];
      cbn [bind E.answer]; [|right; eauto].
    destruct (getitem res "generated_sql") as [sql|e];
      cbn [bind E.answer]; [left | right]; eauto.
Qed.

(** X20. White space around the schema of a request does not count,
    and a request with no [db_content] is treated as one whose
    [db_content] is the empty text. *)
Theorem generate_sql_payload_normalised rw prompt schema db_content :
  E.generate_sql rw (E.PromptPayload prompt (strip schema) db_content)
  = E.generate_sql rw (E.PromptPayload prompt schema db_content)
  /\ E.generate_sql rw (E.PromptPayload prompt schema None)
     = E.generate_sql rw (E.PromptPayload prompt schema (Some "")).
Proof.
  unfold E.generate_sql. cbn [E.pp_schema E.pp_prompt E.pp_db_content].
  rewrite strip_strip. split; reflexivity.
Qed.

(** X21. When the rewriting step returns a dictionary without the key
    ['generated_sql'], the route answers with the error text of the
    [KeyError], which is the key in quotes. *)
Theorem generate_sql_missing_key rw payload res :
  E.generate_sql_with_rewriting rw (E.pp_prompt payload)
    (strip (E.pp_schema payload)) (E.or_empty (E.pp_db_content payload))
  = Ok (PDict res) ->
  dict_get res (KStr "generated_sql") = None ->
  E.generate_sql rw payload
  = Ok (PDict [(KStr "error", PStr "'generated_sql'")]).
Proof.
  intros Hr Hk. unfold E.generate_sql. rewrite Hr. cbn [bind getitem].
  now rewrite Hk.
Qed.

Lemma generate_sql_missing_key_witness :
  E.generate_sql
    (E.Rewriting (fun _ _ _ => Ok (PDict [(KStr "sql", PStr "SELECT 1")]))
                 (fun _ => Ok ("", "")))
    (E.PromptPayload "how many users?" " CREATE TABLE u (id INT); " None)
  = Ok (PDict [(KStr "error", PStr "'generated_sql'")]).
Proof.
  exact (generate_sql_missing_key
           (E.Rewriting (fun _ _ _ => Ok (PDict [(KStr "sql", PStr "SELECT 1")]))
                        (fun _ => Ok ("", "")))
           (E.PromptPayload "how many users?" " CREATE TABLE u (id INT); " None)
           [(KStr "sql", PStr "SELECT 1")] eq_refl eq_refl).
Defined.

(* ================================================================= *)
(** ** One statement, clause by clause *)

Lemma single_statement_parsed t body :
  is_ident t = true -> has_char ";" body = false ->
  parse_sql_schema (plain_statement t body)
  = Ok (PDict [(KStr t, table_of_body body)]).
Proof.
  intros Ht Hb. destruct (create_table_finditer t body Ht Hb) as [e He].
  rewrite parse_sql_schema_fold. unfold statements, plain_statement.
  rewrite He. reflexivity.
Qed.

Lemma has_char_join c : forall defs,
  forallb (fun d => negb (has_char c d)) defs = true ->
  has_char c "," = false ->
  has_char c (join "," defs) = false.
Proof.
  induction defs as [|d defs IH]; intros H Hc; [reflexivity|].
  simpl in H. apply andb_prop in H as [Hd H]. apply negb_true_iff in Hd.
  destruct defs as [|d' defs]; [exact Hd|].
  change (join "," (d :: d' :: defs)) with (d ++ "," ++ join "," (d' :: defs)).
  rewrite !has_char_app, Hd, Hc, (IH H Hc). reflexivity.
Qed.

Lemma split_join : forall defs,
  defs <> [] ->
  forallb (fun d => negb (has_char "," d)) defs = true ->
  split_on "," (join "," defs) = defs.
Proof.
  induction defs as [|d defs IH]; intros Hn H; [congruence|].
  simpl in H. apply andb_prop in H as [Hd H]. apply negb_true_iff in Hd.
  destruct defs as [|d' defs].
  - simpl. now apply split_on_none.
  - change (join "," (d :: d' :: defs))
      with (d ++ String "," (join "," (d' :: defs))).
    rewrite split_on_cut by exact Hd. f_equal. apply IH; [discriminate|exact H].
Qed.

Lemma after_clauses_strip : forall defs st,
  after_clauses st (map strip defs) = after_clauses st defs.
Proof.
  unfold after_clauses. induction defs as [|c defs IH]; intros st; simpl;
    [reflexivity|]. now rewrite classify_strip, IH.
Qed.

Lemma forallb_plain_comma defs :
  forallb clause_plain defs = true ->
  forallb (fun d => negb (has_char "," d)) defs = true
  /\ forallb (fun d => negb (has_char ";" d)) defs = true.
Proof.
  unfold clause_plain. induction defs as [|d defs IH]; simpl; [auto|].
  intros H. apply andb_prop in H as [Hd H]. apply andb_prop in Hd as [H1 H2].
  destruct (IH H) as [I1 I2]. now rewrite H1, H2, I1, I2.
Qed.

(** The statement made of the clauses [defs] gives the one table that
    the clauses give, one after the other, from the empty table. *)
Lemma statement_of_clauses t defs :
  is_ident t = true -> forallb clause_plain defs = true ->
  parse_sql_schema (plain_statement t (join "," defs))
  = Ok (PDict [(KStr t, table_dict (after_clauses empty_table defs))]).
Proof.
  intros Ht Hd. destruct (forallb_plain_comma defs Hd) as [Hc Hs].
  rewrite single_statement_parsed;
    [|exact Ht | now apply has_char_join].
  unfold table_of_body. fold empty_table.
  destruct defs as [|d defs]; [reflexivity|].
  rewrite split_join by (discriminate || exact Hc).
  now rewrite after_clauses_strip.
Qed.

Lemma after_clauses_foreign_keys : forall defs st,
  t_foreign_keys (after_clauses st defs)
  = (t_foreign_keys st ++ foreign_keys_of defs)%list.
Proof.
  induction defs as [|c defs IH]; intros st.
  - unfold after_clauses. simpl. now rewrite app_nil_r.
  - rewrite after_clauses_cons, IH. unfold foreign_keys_of. cbn [flat_map].
    destruct (classify c) as [[col|] | [d|] | name type | ];
      cbn [apply_clause t_foreign_keys app]; try reflexivity.
    now rewrite <- app_assoc.
Qed.

(** The table of a list of clauses, field by field. *)
Lemma table_of_clauses defs :
  table_dict (after_clauses empty_table defs)
  = PDict [(KStr "columns", PDict (columns_dict (columns_of defs)));
           (KStr "primary_key", last (map PStr (primary_keys defs)) PNone);
           (KStr "foreign_keys", PList (foreign_keys_of defs))].
Proof.
  unfold table_dict.
  now rewrite after_clauses_columns_fold, after_clauses_primary_key,
              after_clauses_foreign_keys.
Qed.

(** *** White space around a clause *)

Lemma rstrip_all_space r : all_chars is_space r = true -> rstrip r = "".
Proof.
  induction r as [|c r IH]; simpl; [reflexivity|].
  intros H. apply andb_prop in H as [Hc Hr]. now rewrite (IH Hr), Hc.
Qed.

Lemma rstrip_spaces r : all_chars is_space r = true ->
  forall s, rstrip (s ++ r) = rstrip s.
Proof.
  intros Hr. induction s as [|c s IH]; simpl.
  - now apply rstrip_all_space.
  - now rewrite IH.
Qed.

Lemma strip_padded l s r :
  all_chars is_space l = true -> all_chars is_space r = true ->
  head_ok is_space s = false -> last_ok not_space s = true ->
  strip (l ++ s ++ r) = s.
Proof.
  intros Hl Hr Hh Hlast. unfold strip.
  rewrite lstrip_spaces by exact Hl.
  rewrite lstrip_fixed.
  - rewrite rstrip_spaces by exact Hr. now apply rstrip_fixed.
  - destruct s; [discriminate | exact Hh].
Qed.

Lemma classify_of_strip c s : strip c = s -> classify c = classify s.
Proof. intros <-. symmetry. apply classify_strip. Qed.

Lemma all_has_no ok c w :
  ok c = false -> all_chars ok w = true -> has_char c w = false.
Proof.
  intros Hc. induction w as [|a w IH]; simpl; [reflexivity|].
  intros H. apply andb_prop in H as [Ha Hw]. rewrite (IH Hw), orb_false_r.
  apply Ascii.eqb_neq. intros ->. congruence.
Qed.

Lemma spaces_plain w : all_chars is_space w = true -> clause_plain w = true.
Proof.
  intros H. unfold clause_plain.
  now rewrite !(all_has_no is_space _ w) by (reflexivity || exact H).
Qed.

Lemma clause_plain_app a b :
  clause_plain (a ++ b) = clause_plain a && clause_plain b.
Proof.
  unfold clause_plain. rewrite !has_char_app.
  destruct (has_char "," a), (has_char "," b), (has_char ";" a),
    (has_char ";" b); reflexivity.
Qed.

Lemma ident_plain w : is_ident w = true -> clause_plain w = true.
Proof.
  intros H. apply is_ident_inv in H as [_ H]. unfold clause_plain.
  now rewrite !(word_has_no _ w) by (reflexivity || exact H).
Qed.

(** *** Foreign keys among other clauses *)

Lemma fk_clause_plain x y z :
  is_ident x = true -> is_ident y = true -> is_ident z = true ->
  clause_plain (fk_clause x y z) = true.
Proof.
  intros Hx Hy Hz. unfold fk_clause.
  rewrite !clause_plain_app, (ident_plain x), (ident_plain y), (ident_plain z)
    by assumption.
  reflexivity.
Qed.

Lemma classify_fk_padded l x y z r :
  all_chars is_space l = true -> all_chars is_space r = true ->
  is_ident x = true -> is_ident y = true -> is_ident z = true ->
  classify (l ++ fk_clause x y z ++ r)
  = ForeignKey (Some (fk_descriptor x y z)).
Proof.
  intros Hl Hr Hx Hy Hz.
  rewrite (classify_of_strip _ (fk_clause x y z)); [now apply classify_fk|].
  apply strip_padded; try assumption; [reflexivity|].
  replace (fk_clause x y z)
    with (("FOREIGN KEY (" ++ x ++ ") REFERENCES " ++ y ++ "(" ++ z) ++ ")")
    by (unfold fk_clause; rewrite ?app_assoc_s; reflexivity).
  now rewrite last_ok_app.
Qed.

Lemma classify_fk_failed c :
  is_foreign_key_clause (strip c) = true ->
  search icase foreign_key_re (strip c) = None ->
  classify c = ForeignKey None.
Proof.
  intros Hfk Hs. unfold classify.
  assert (Hpk : is_primary_key_clause (strip c) = false)
    by (apply fk_not_pk; exact Hfk).
  now rewrite Hpk, Hfk, Hs.
Qed.

Lemma classify_not_fk c :
  is_foreign_key_clause (strip c) = false ->
  forall d, classify c <> ForeignKey d.
Proof.
  intros Hfk d. unfold classify. rewrite Hfk.
  destruct (is_primary_key_clause (strip c)); [discriminate|].
  destruct (split_none_1 (strip c)) as [|n [|ty rest]]; discriminate.
Qed.

Lemma fk_item_plain i : fk_item_ok i = true -> clause_plain (fk_item_text i) = true.
Proof.
  destruct i as [l x y z r | c | c]; cbn [fk_item_text fk_item_ok]; intros H.
  - repeat (apply andb_prop in H as [H ?]).
    rewrite !clause_plain_app, fk_clause_plain, (spaces_plain l),
      (spaces_plain r) by assumption.
    reflexivity.
  - apply andb_prop in H as [H _]. apply andb_prop in H as [H _]. exact H.
  - apply andb_prop in H as [H _]. exact H.
Qed.

Lemma fk_items_plain items :
  forallb fk_item_ok items = true ->
  forallb clause_plain (map fk_item_text items) = true.
Proof.
  induction items as [|i items IH]; simpl; [reflexivity|].
  intros H. apply andb_prop in H as [Hi H].
  now rewrite fk_item_plain, IH.
Qed.

Lemma filter_ok {A : Type} (ok keep : A -> bool) l :
  forallb ok l = true -> forallb ok (filter keep l) = true.
Proof.
  induction l as [|a l IH]; simpl; [reflexivity|].
  intros H. apply andb_prop in H as [Ha H].
  destruct (keep a); simpl; [rewrite Ha|]; auto.
Qed.

Lemma fk_item_classified i :
  fk_item_ok i = true ->
  if is_not_fk i
  then forall d, classify (fk_item_text i) <> ForeignKey d
  else classify (fk_item_text i)
       = ForeignKey match fk_item_descriptors i with
                    | [PStr d] => Some d
                    | _ => None
                    end.
Proof.
  destruct i as [l x y z r | c | c];
    cbn [fk_item_text fk_item_ok is_not_fk fk_item_descriptors]; intros H.
  - repeat (apply andb_prop in H as [H ?]). now apply classify_fk_padded.
  - apply andb_prop in H as [H Hs]. apply andb_prop in H as [_ Hfk].
    apply classify_fk_failed; [exact Hfk|].
    destruct (search icase foreign_key_re (strip c)); [discriminate|reflexivity].
  - apply andb_prop in H as [_ H]. apply negb_true_iff in H.
    now apply classify_not_fk.
Qed.

Lemma fk_items_parts : forall its,
  forallb fk_item_ok its = true ->
  columns_of (map fk_item_text its)
  = columns_of (map fk_item_text (filter is_not_fk its))
  /\ primary_keys (map fk_item_text its)
     = primary_keys (map fk_item_text (filter is_not_fk its))
  /\ foreign_keys_of (map fk_item_text its)
     = flat_map fk_item_descriptors its
  /\ foreign_keys_of (map fk_item_text (filter is_not_fk its)) = [].
Proof.
  induction its as [|i its IH]; [now repeat split|].
  cbn [forallb]. intros H. apply andb_prop in H as [Hi H].
  destruct (IH H) as (Ic & Ip & If & In).
  pose proof (fk_item_classified i Hi) as Hc.
  unfold primary_keys, foreign_keys_of in *.
  cbn [filter map flat_map columns_of]. unfold column_of.
  destruct (is_not_fk i) eqn:E.
  - cbn [map flat_map columns_of]. unfold column_of.
    destruct i as [l x y z r | c | c]; try discriminate E.
    cbn [fk_item_descriptors app].
    destruct (classify (fk_item_text (NotFk c))) as [[col|] | d | name type | ];
      try (exfalso; now apply (Hc d));
      cbn [app]; repeat split; congruence.
  - rewrite Hc.
    destruct i as [l x y z r | c | c]; try discriminate E;
      cbn [fk_item_descriptors app]; repeat split; congruence.
Qed.

(** C5. In the body of a statement, every clause
    [FOREIGN KEY (x) REFERENCES y(z)] (with [x], [y], [z] identifiers,
    white space around it allowed) adds the descriptor ["x -> y.z"]:
    [foreign_keys] is the list of these descriptors in the order of the
    clauses, whatever other clauses stand between them.  A clause that
    starts with [FOREIGN KEY] on which the sub-pattern finds nothing is
    dropped and raises nothing: the statement gives the columns and the
    primary key that it gives without any of its [FOREIGN KEY]
    clauses. *)
Theorem foreign_keys_in_order t items :
  is_ident t = true -> forallb fk_item_ok items = true ->
  exists columns primary_key,
    parse_sql_schema
      (plain_statement t (join "," (map fk_item_text items)))
    = Ok (PDict [(KStr t,
            PDict [(KStr "columns", columns);
                   (KStr "primary_key", primary_key);
                   (KStr "foreign_keys",
                    PList (flat_map fk_item_descriptors items))])])
    /\ parse_sql_schema
         (plain_statement t
            (join "," (map fk_item_text (filter is_not_fk items))))
       = Ok (PDict [(KStr t,
               PDict [(KStr "columns", columns);
                      (KStr "primary_key", primary_key);
                      (KStr "foreign_keys", PList [])])]).
Proof.
  intros Ht Hi.
  destruct (fk_items_parts items Hi) as (Hc & Hp & Hf & Hn).
  eexists _, _. split.
  - rewrite statement_of_clauses, table_of_clauses, Hf;
      [reflexivity | exact Ht | now apply fk_items_plain].
  - rewrite statement_of_clauses, table_of_clauses, Hn, <- Hc, <- Hp;
      [reflexivity | exact Ht | now apply fk_items_plain, filter_ok].
Qed.

Lemma foreign_keys_in_order_witness :
  exists columns primary_key,
    parse_sql_schema
      "CREATE TABLE o (id INT, FOREIGN KEY (uid) REFERENCES users(id), FOREIGN KEY uid, PRIMARY KEY (id),
  FOREIGN KEY (pid) REFERENCES products(id) );"
    = Ok (PDict [(KStr "o",
            PDict [(KStr "columns", columns);
                   (KStr "primary_key", primary_key);
                   (KStr "foreign_keys",
                    PList [PStr "uid -> users.id";
                           PStr "pid -> products.id"])])])
    /\ parse_sql_schema "CREATE TABLE o (id INT, PRIMARY KEY (id));"
       = Ok (PDict [(KStr "o",
               PDict [(KStr "columns", columns);
                      (KStr "primary_key", primary_key);
                      (KStr "foreign_keys", PList [])])]).
Proof.
  exact (foreign_keys_in_order "o"
           [NotFk "id INT"; FkGood " " "uid" "users" "id" "";
            FkFailed " FOREIGN KEY uid"; NotFk " PRIMARY KEY (id)";
            FkGood (String "010" "  ") "pid" "products" "id" " "]
           eq_refl eq_refl).
Defined.

(** *** The last primary key *)

Lemma column_clause_classified c :
  is_primary_key_clause (strip c) || is_foreign_key_clause (strip c) = false ->
  (forall col, classify c <> PrimaryKey col)
  /\ (forall d, classify c <> ForeignKey d).
Proof.
  intros H. apply orb_false_elim in H as [Hpk Hfk].
  unfold classify. rewrite Hpk, Hfk.
  destruct (split_none_1 (strip c)) as [|n [|ty rest]]; split; discriminate.
Qed.

Lemma column_clauses_keys : forall defs,
  primary_keys (column_clauses defs) = []
  /\ foreign_keys_of (column_clauses defs) = [].
Proof.
  induction defs as [|c defs [Ip If]]; [now split|].
  unfold column_clauses. cbn [filter]. fold (column_clauses defs).
  destruct (is_primary_key_clause (strip c) || is_foreign_key_clause (strip c))
    eqn:E; cbn [negb]; [now split|].
  destruct (column_clause_classified c E) as [Hpk Hfk].
  unfold primary_keys, foreign_keys_of in *. cbn [flat_map].
  rewrite Ip, If.
  destruct (classify c) as [col | d | name type | ];
    [now destruct (Hpk col) | now destruct (Hfk d) | now split | now split].
Qed.

Lemma column_clauses_columns defs :
  columns_dict (columns_of (column_clauses defs))
  = columns_dict (columns_of defs).
Proof.
  pose proof (after_clauses_columns defs empty_table) as H.
  now rewrite !after_clauses_columns_fold in H.
Qed.

Lemma column_clauses_plain defs :
  forallb clause_plain defs = true ->
  forallb clause_plain (column_clauses defs) = true.
Proof. apply filter_ok. Qed.


(** X23. Take as a [PRIMARY KEY] or [FOREIGN KEY] clause a clause
    that, trimmed and in upper case, starts with the text [PRIMARY KEY]
    or [FOREIGN KEY], the two words one blank apart.  The statement
    with the clauses [defs] gives as [primary_key] the column name of
    the last [PRIMARY KEY] clause on which the sub-pattern matches
    ([None] when there is none), and as [columns] what the statement
    gives that has the other clauses only, without the [PRIMARY KEY]
    and [FOREIGN KEY] clauses. *)
Theorem last_primary_key_clause_wins t defs :
  is_ident t = true -> forallb clause_plain defs = true ->
  exists columns foreign_keys,
    parse_sql_schema (plain_statement t (join "," defs))
    = Ok (PDict [(KStr t,
            PDict [(KStr "columns", columns);
                   (KStr "primary_key",
                    last (map PStr (primary_keys defs)) PNone);
                   (KStr "foreign_keys", foreign_keys)])])
    /\ parse_sql_schema (plain_statement t (join "," (column_clauses defs)))
       = Ok (PDict [(KStr t,
               PDict [(KStr "columns", columns);
                      (KStr "primary_key", PNone);
                      (KStr "foreign_keys", PList [])])]).
Proof.
  intros Ht Hd. eexists _, _. split.
  - rewrite statement_of_clauses, table_of_clauses by assumption.
    reflexivity.
  - destruct (column_clauses_keys defs) as [Hp Hf].
    rewrite statement_of_clauses, table_of_clauses, Hp, Hf,
      column_clauses_columns;
      [reflexivity | exact Ht | now apply column_clauses_plain].
Qed.

Lemma last_primary_key_clause_wins_witness :
  exists columns foreign_keys,
    parse_sql_schema
      "CREATE TABLE t (a INT, PRIMARY KEY(a), b INT,primary key (b) , FOREIGN KEY (b) REFERENCES u(id),PRIMARY KEY c);"
    = Ok (PDict [(KStr "t",
            PDict [(KStr "columns", columns);
                   (KStr "primary_key", PStr "b");
                   (KStr "foreign_keys", foreign_keys)])])
    /\ parse_sql_schema "CREATE TABLE t (a INT, b INT);"
       = Ok (PDict [(KStr "t",
               PDict [(KStr "columns", columns);
                      (KStr "primary_key", PNone);
                      (KStr "foreign_keys", PList [])])]).
Proof.
  exact (last_primary_key_clause_wins "t"
           ["a INT"; " PRIMARY KEY(a)"; " b INT"; "primary key (b) ";
            " FOREIGN KEY (b) REFERENCES u(id)"; "PRIMARY KEY c"]
           eq_refl eq_refl).
Defined.

(** *** Column clauses *)

Lemma is_word_text_inv name :
  is_word_text name = true -> name <> "" /\ all_chars not_space name = true.
Proof.
  unfold is_word_text. intros H. apply andb_prop in H as [H1 H2].
  split; [|exact H2]. intros ->. discriminate.
Qed.

Lemma lstrip_all_space s : all_chars is_space s = true -> lstrip s = "".
Proof.
  induction s as [|c s IH]; simpl; [reflexivity|].
  intros H. apply andb_prop in H as [Hc Hs]. now rewrite Hc, IH.
Qed.

Lemma classify_blank c : all_chars is_space c = true -> classify c = Empty.
Proof.
  intros H. rewrite (classify_of_strip c "").
  - reflexivity.
  - unfold strip. now rewrite lstrip_all_space.
Qed.

Lemma classify_key c :
  is_primary_key_clause (strip c) || is_foreign_key_clause (strip c) = true ->
  column_of c = None.
Proof.
  intros H. unfold column_of, classify.
  destruct (is_primary_key_clause (strip c)); [reflexivity|].
  simpl in H. now rewrite H.
Qed.

Lemma classify_word_padded l name r :
  all_chars is_space l = true -> all_chars is_space r = true ->
  is_word_text name = true ->
  classify (l ++ name ++ r) = Column name "VARCHAR(255)".
Proof.
  intros Hl Hr Hn. apply is_word_text_inv in Hn as [Hn Hw].
  rewrite (classify_of_strip _ name); [now apply classify_one_word|].
  apply strip_padded; auto using word_head_not_space, last_ok_all.
Qed.

Lemma classify_typed_padded l name ws type r :
  all_chars is_space l = true -> all_chars is_space r = true ->
  is_word_text name = true ->
  ws <> "" -> all_chars is_space ws = true ->
  head_ok not_space type = true -> last_ok not_space type = true ->
  is_primary_key_clause (name ++ ws ++ type)
    || is_foreign_key_clause (name ++ ws ++ type) = false ->
  classify (l ++ (name ++ ws ++ type) ++ r) = Column name type.
Proof.
  intros Hl Hr Hn Hws Hs Hh Hlast Hk.
  apply is_word_text_inv in Hn as [Hn Hw].
  apply orb_false_elim in Hk as [Hpk Hfk].
  assert (Ht : type <> "") by (intros ->; discriminate).
  assert (Hfix : strip (name ++ ws ++ type) = name ++ ws ++ type).
  { apply strip_fixed.
    - rewrite head_ok_app by exact Hn. now apply word_head_not_space.
    - now rewrite !last_ok_app_r by (exact Ht || (destruct ws; [congruence|discriminate])). }
  rewrite (classify_of_strip _ (name ++ ws ++ type)).
  - unfold classify. rewrite Hfix, Hpk, Hfk.
    now rewrite split_none_1_two.
  - apply strip_padded; try assumption.
    + rewrite head_ok_app by exact Hn. now apply word_head_not_space.
    + now rewrite !last_ok_app_r by (exact Ht || (destruct ws; [congruence|discriminate])).
Qed.

Lemma column_item_plain i :
  column_item_ok i = true -> clause_plain (column_item_text i) = true.
Proof.
  destruct i as [c | c | l name r | l name ws type r];
    cbn [column_item_text column_item_ok]; intros H.
  - apply andb_prop in H as [H _]. exact H.
  - now apply spaces_plain.
  - repeat (apply andb_prop in H as [H ?]).
    rewrite !clause_plain_app, (spaces_plain l), (spaces_plain r) by assumption.
    now rewrite andb_true_r.
  - repeat (apply andb_prop in H as [H ?]).
    rewrite !clause_plain_app, (spaces_plain l), (spaces_plain r),
      (spaces_plain ws) by assumption.
    cbn [andb]. rewrite andb_true_r. now apply andb_true_intro.
Qed.

Lemma column_items_plain its :
  forallb column_item_ok its = true ->
  forallb clause_plain (map column_item_text its) = true.
Proof.
  induction its as [|i its IH]; simpl; [reflexivity|].
  intros H. apply andb_prop in H as [Hi H].
  now rewrite column_item_plain, IH.
Qed.

Lemma column_item_column i :
  column_item_ok i = true ->
  column_of (column_item_text i)
  = match column_item_columns i with
    | e :: _ => Some e
    | [] => None
    end.
Proof.
  destruct i as [c | c | l name r | l name ws type r];
    cbn [column_item_text column_item_ok column_item_columns]; intros H.
  - apply andb_prop in H as [_ H]. now apply classify_key.
  - unfold column_of. now rewrite classify_blank.
  - repeat (apply andb_prop in H as [H ?]).
    unfold column_of. now rewrite classify_word_padded.
  - repeat (apply andb_prop in H as [H ?]).
    unfold column_of. rewrite classify_typed_padded; try assumption;
      try reflexivity.
    + intros ->. discriminate.
    + now apply negb_true_iff.
Qed.

Lemma column_items_columns : forall its,
  forallb column_item_ok its = true ->
  columns_of (map column_item_text its) = flat_map column_item_columns its.
Proof.
  induction its as [|i its IH]; [reflexivity|].
  cbn [forallb map columns_of flat_map]. intros H.
  apply andb_prop in H as [Hi H].
  rewrite (column_item_column i Hi), (IH H).
  destruct i; reflexivity.
Qed.

(** Every clause is of one of the four kinds. *)

Lemma lstrip_split s :
  exists l, all_chars is_space l = true /\ s = l ++ lstrip s.
Proof.
  induction s as [|c s (l & Hl & E)]; [now exists ""|]. simpl.
  destruct (is_space c) eqn:Ec.
  - exists (String c l). simpl. rewrite Ec, Hl. split; [reflexivity|].
    now rewrite <- E.
  - now exists "".
Qed.

Lemma rstrip_split s :
  exists r, all_chars is_space r = true /\ s = rstrip s ++ r.
Proof.
  induction s as [|c s (r & Hr & E)]; [now exists ""|]. simpl.
  destruct (rstrip s) as [|d s'] eqn:Es.
  - destruct (is_space c) eqn:Ec.
    + exists (String c r). simpl. rewrite Ec, Hr. split; [reflexivity|].
      simpl in E. congruence.
    + exists r. split; [exact Hr|]. simpl in *. congruence.
  - exists r. split; [exact Hr|]. simpl in *. congruence.
Qed.

Lemma strip_split c :
  exists l r, all_chars is_space l = true /\ all_chars is_space r = true
              /\ c = l ++ strip c ++ r.
Proof.
  destruct (lstrip_split c) as (l & Hl & El).
  destruct (rstrip_split (lstrip c)) as (r & Hr & Er).
  exists l, r. repeat split; try assumption.
  unfold strip. now rewrite <- Er.
Qed.

Lemma take_word_split s :
  s = fst (take_word s) ++ snd (take_word s)
  /\ all_chars not_space (fst (take_word s)) = true
  /\ head_ok not_space (snd (take_word s)) = false.
Proof.
  induction s as [|c s (E & Hw & Hr)]; [now repeat split|]. simpl.
  destruct (is_space c) eqn:Ec.
  - simpl. unfold not_space. rewrite Ec. now repeat split.
  - destruct (take_word s) as [w r]. simpl in *.
    unfold not_space at 1. rewrite Ec, Hw. repeat split; [|exact Hr].
    now rewrite <- E.
Qed.

Lemma column_item_cases c :
  clause_plain c = true ->
  exists i, column_item_ok i = true /\ column_item_text i = c.
Proof.
  intros Hc.
  destruct (is_primary_key_clause (strip c) || is_foreign_key_clause (strip c))
    eqn:Hk.
  { exists (KeyClause c). simpl. now rewrite Hc, Hk. }
  destruct (strip_split c) as (l & r & Hl & Hr & E).
  destruct (strip c) as [|a s] eqn:Es.
  { exists (BlankClause c). split; [|reflexivity]. simpl.
    rewrite E, all_chars_app, Hl. exact Hr. }
  assert (Hhead : head_ok is_space (strip c) = false)
    by (unfold strip; apply rstrip_head, lstrip_head_ok).
  assert (Hlast : last_ok not_space (strip c) = true)
    by (unfold strip in *; exact (rstrip_last _ _ _ Es)).
  assert (Hplain : clause_plain (strip c) = true).
  { rewrite Es. rewrite E, !clause_plain_app in Hc.
    apply andb_prop in Hc as [_ Hc]. now apply andb_prop in Hc as [Hc _]. }
  rewrite Es in Hhead, Hlast, Hplain.
  destruct (take_word_split (String a s)) as (Ew & Hw & Hrest).
  destruct (take_word (String a s)) as [name rest] eqn:Et. simpl in Ew, Hw, Hrest.
  assert (Hname : is_word_text name = true).
  { unfold is_word_text. rewrite Hw, andb_true_r.
    destruct name; [|reflexivity]. simpl in Ew. subst rest.
    simpl in Hhead, Hrest. unfold not_space in Hrest.
    now rewrite Hhead in Hrest. }
  rewrite Ew, clause_plain_app in Hplain. apply andb_prop in Hplain as [Pn Pr].
  destruct rest as [|b rest'] eqn:Er.
  { exists (OneWord l name r). split.
    - simpl. now rewrite Hl, Hr, Hname, Pn.
    - simpl. rewrite E, Ew. now rewrite app_nil_r_s. }
  destruct (lstrip_split (String b rest')) as (ws & Hws & Ews).
  set (type := lstrip (String b rest')) in *.
  assert (Hws' : ws <> "").
  { intros ->. simpl in Ews.
    pose proof (lstrip_head_ok (String b rest')) as Hh. fold type in Hh.
    rewrite <- Ews in Hh. simpl in Hh, Hrest. unfold not_space in Hrest.
    now rewrite Hh in Hrest. }
  assert (Hrl : last_ok not_space (String b rest') = true).
  { rewrite Ew in Hlast. now rewrite last_ok_app_r in Hlast by discriminate. }
  assert (Htype : type <> "").
  { intros Ety. rewrite Ety, app_nil_r_s in Ews. rewrite Ews in Hrl.
    destruct ws as [|w0 ws0]; [congruence|].
    pose proof (last_ok_all is_space (String w0 ws0)) as Hall.
    assert (Hx : last_ok is_space (String w0 ws0) = true)
      by (apply Hall; [discriminate | exact Hws]).
    clear - Hx Hrl. revert w0 Hx Hrl. induction ws0 as [|w1 ws0 IH]; intros w0.
    - simpl. unfold not_space. now intros ->.
    - intros Hx Hrl. exact (IH w1 Hx Hrl). }
  exists (NameType l name ws type r). split.
  - cbn [column_item_ok]. rewrite Hl, Hr, Hname, Pn, Hws.
    rewrite Ews, clause_plain_app in Pr. apply andb_prop in Pr as [_ Pt].
    rewrite Pt.
    assert (Hth : head_ok not_space type = true).
    { pose proof (lstrip_head_ok (String b rest')) as Hh. fold type in Hh.
      destruct type; [congruence|]. simpl in *. unfold not_space.
      now rewrite Hh. }
    rewrite Hth.
    rewrite Ews, last_ok_app_r in Hrl by exact Htype. rewrite Hrl.
    rewrite <- Ews, <- Ew, Hk.
    destruct ws; [congruence | reflexivity].
  - cbn [column_item_text]. now rewrite <- Ews, <- Ew.
Qed.

(** C7. A clause that does not start with [PRIMARY KEY] or
    [FOREIGN KEY] is cut at its first run of white space into at most
    two pieces.  The statement whose clauses are of the four kinds
    gives as [columns]: nothing for a clause of white space only (such
    as the one after a trailing comma), the word with the type
    ["VARCHAR(255)"] for a clause of one word, and the word with the
    text after the white space as its type for a word, white space and
    more text; the columns are set in the order of the clauses.  Every
    clause is of one of the four kinds. *)
Theorem column_clauses_recorded t its :
  is_ident t = true -> forallb column_item_ok its = true ->
  (exists primary_key foreign_keys,
     parse_sql_schema
       (plain_statement t (join "," (map column_item_text its)))
     = Ok (PDict [(KStr t,
             PDict [(KStr "columns",
                     PDict (columns_dict (flat_map column_item_columns its)));
                    (KStr "primary_key", primary_key);
                    (KStr "foreign_keys", foreign_keys)])]))
  /\ (forall c, List.length (split_none_1 (strip c)) <= 2)
  /\ (forall c, clause_plain c = true ->
        exists i, column_item_ok i = true /\ column_item_text i = c).
Proof.
  intros Ht Hi. split; [|split].
  - eexists _, _.
    rewrite statement_of_clauses, table_of_clauses, column_items_columns;
      [reflexivity | exact Hi | exact Ht | now apply column_items_plain].
  - intros c. destruct (split_none_1_cases (strip c))
      as [E | [(w & E & _) | (w & r & E)]]; rewrite E; simpl; lia.
  - apply column_item_cases.
Qed.

Lemma column_clauses_recorded_witness :
  exists primary_key foreign_keys,
    parse_sql_schema
      "CREATE TABLE t (id,  amount   DECIMAL(10 , PRIMARY KEY (id), note TEXT NOT NULL, );"
    = Ok (PDict [(KStr "t",
            PDict [(KStr "columns",
                    PDict [(KStr "id", PStr "VARCHAR(255)");
                           (KStr "amount", PStr "DECIMAL(10");
                           (KStr "note", PStr "TEXT NOT NULL")]);
                   (KStr "primary_key", primary_key);
                   (KStr "foreign_keys", foreign_keys)])]).
Proof.
  exact (proj1 (column_clauses_recorded "t"
                  [OneWord "" "id" "";
                   NameType "  " "amount" "   " "DECIMAL(10" " ";
                   KeyClause " PRIMARY KEY (id)";
                   NameType " " "note" " " "TEXT NOT NULL" "";
                   BlankClause " "]
                  eq_refl eq_refl)).
Defined.


(** *** Key words in any letter case *)

Lemma has_char_upper c s :
  upper_char c = c -> (forall d, upper_char d = c -> d = c) ->
  has_char c (upper s) = has_char c s.
Proof.
  intros Hc Hd. unfold upper. induction s as [|a s IH]; simpl; [reflexivity|].
  rewrite IH. f_equal.
  destruct (Ascii.eqb_spec a c) as [->|Hn].
  - rewrite Hc. apply Ascii.eqb_refl.
  - apply Ascii.eqb_neq. intros E. now apply Hn, Hd.
Qed.

Lemma clause_plain_upper s : clause_plain (upper s) = clause_plain s.
Proof.
  unfold clause_plain. rewrite !has_char_upper; try reflexivity;
    intros d; each_char d; vm_compute; congruence.
Qed.

Lemma upper_plain s u :
  upper s = u -> clause_plain u = true -> clause_plain s = true.
Proof. intros <-. now rewrite clause_plain_upper. Qed.

Lemma one_clause_statement t c :
  is_ident t = true -> clause_plain c = true ->
  parse_sql_schema (plain_statement t c)
  = Ok (PDict [(KStr t, table_dict (apply_clause empty_table (classify c)))]).
Proof.
  intros Ht Hc. change c with (join "," [c]) at 1.
  rewrite statement_of_clauses; [reflexivity | exact Ht |].
  simpl. now rewrite Hc.
Qed.

(** X5. A statement whose body is the clause [PRIMARY KEY (a)] gives
    the primary key [a] and no column, whatever the letter case of the
    two words, which one blank separates, and whatever white space
    stands before the parenthesis; the name [a] is kept as written. *)
Theorem primary_key_any_case_parsed t pk ky ws a :
  is_ident t = true ->
  upper pk = "PRIMARY" -> upper ky = "KEY" ->
  all_chars is_space ws = true -> is_ident a = true ->
  parse_sql_schema
    (plain_statement t (pk ++ " " ++ ky ++ ws ++ "(" ++ a ++ ")"))
  = Ok (PDict [(KStr t,
          PDict [(KStr "columns", PDict []);
                 (KStr "primary_key", PStr a);
                 (KStr "foreign_keys", PList [])])]).
Proof.
  intros Ht Hpk Hky Hws Ha.
  rewrite one_clause_statement.
  - now rewrite classify_primary_key_any_case.
  - exact Ht.
  - rewrite !clause_plain_app, (upper_plain pk _ Hpk), (upper_plain ky _ Hky),
      (spaces_plain ws), (ident_plain a) by (assumption || reflexivity).
    reflexivity.
Qed.

Lemma primary_key_any_case_parsed_witness :
  parse_sql_schema ("CREATE TABLE users (Primary key" ++ nl ++ "  (user_Id));")
  = Ok (PDict [(KStr "users",
          PDict [(KStr "columns", PDict []);
                 (KStr "primary_key", PStr "user_Id");
                 (KStr "foreign_keys", PList [])])]).
Proof.
  exact (primary_key_any_case_parsed "users" "Primary" "key" (nl ++ "  ")
           "user_Id" eq_refl eq_refl eq_refl eq_refl eq_refl).
Defined.

(** X6. The two words of a key clause must be one blank apart: a
    statement whose body is [PRIMARY] or [FOREIGN], in any letter
    case, then other white space, then more text, gives no key but a
    column that has the word as its name and the text as its type. *)
Theorem key_words_apart_parsed t kw ws rest :
  is_ident t = true ->
  upper kw = "PRIMARY" \/ upper kw = "FOREIGN" ->
  ws <> "" -> ws <> " " -> all_chars is_space ws = true ->
  head_ok not_space rest = true -> last_ok not_space rest = true ->
  clause_plain rest = true ->
  parse_sql_schema (plain_statement t (kw ++ ws ++ rest))
  = Ok (PDict [(KStr t,
          PDict [(KStr "columns", PDict [(KStr kw, PStr rest)]);
                 (KStr "primary_key", PNone);
                 (KStr "foreign_keys", PList [])])]).
Proof.
  intros Ht Hkw Hn Hb Hs Hh Hl Hr.
  rewrite one_clause_statement.
  - now rewrite classify_key_words_apart.
  - exact Ht.
  - rewrite !clause_plain_app, (spaces_plain ws), Hr by assumption.
    destruct Hkw as [E|E]; now rewrite (upper_plain kw _ E).
Qed.

Lemma key_words_apart_parsed_witness :
  parse_sql_schema "CREATE TABLE t (PRIMARY  KEY (id));"
  = Ok (PDict [(KStr "t",
          PDict [(KStr "columns", PDict [(KStr "PRIMARY", PStr "KEY (id)")]);
                 (KStr "primary_key", PNone);
                 (KStr "foreign_keys", PList [])])]).
Proof.
  refine (key_words_apart_parsed "t" "PRIMARY" "  " "KEY (id)" eq_refl
            (or_introl eq_refl) _ _ eq_refl eq_refl eq_refl eq_refl);
    discriminate.
Defined.

(** X7. In the table a statement gives, a column has the type of the
    last clause of the body that records it, and a name that no clause
    records is not among the columns. *)
Theorem last_column_clause_wins t its name :
  is_ident t = true -> forallb column_item_ok its = true ->
  exists columns primary_key foreign_keys,
    parse_sql_schema
      (plain_statement t (join "," (map column_item_text its)))
    = Ok (PDict [(KStr t,
            PDict [(KStr "columns", PDict columns);
                   (KStr "primary_key", primary_key);
                   (KStr "foreign_keys", foreign_keys)])])
    /\ dict_get columns (KStr name)
       = option_map (fun e => PStr (snd e))
           (find (fun e => String.eqb (fst e) name)
                 (rev (flat_map column_item_columns its))).
Proof.
  intros Ht Hi. eexists _, _, _. split.
  - rewrite statement_of_clauses, table_of_clauses, column_items_columns;
      [reflexivity | exact Hi | exact Ht | now apply column_items_plain].
  - unfold columns_dict.
    rewrite (dict_get_fold fst (fun e => PStr (snd e))).
    now destruct (find _ _).
Qed.

Lemma last_column_clause_wins_witness :
  exists columns primary_key foreign_keys,
    parse_sql_schema "CREATE TABLE t (a INT, b TEXT,a  BIGINT,c);"
    = Ok (PDict [(KStr "t",
            PDict [(KStr "columns", PDict columns);
                   (KStr "primary_key", primary_key);
                   (KStr "foreign_keys", foreign_keys)])])
    /\ dict_get columns (KStr "a") = Some (PStr "BIGINT").
Proof.
  exact (last_column_clause_wins "t"
           [NameType "" "a" " " "INT" ""; NameType " " "b" " " "TEXT" "";
            NameType "" "a" "  " "BIGINT" ""; OneWord "" "c" ""]
           "a" eq_refl eq_refl).
Defined.

(** X22. The body is cut at every comma, also at one inside the
    parentheses of a type: the statement with the body [n ty(p,q)]
    gives the column [n] with the type [ty(p] and a second column
    named [q)] with the type ["VARCHAR(255)"]. *)
Theorem comma_in_type_parsed t n ty p q :
  is_ident t = true -> column_name n = true ->
  is_ident ty = true -> is_ident p = true -> is_ident q = true ->
  parse_sql_schema
    (plain_statement t (n ++ " " ++ ty ++ "(" ++ p ++ "," ++ q ++ ")"))
  = Ok (PDict [(KStr t,
          PDict [(KStr "columns",
                  PDict [(KStr n, PStr (ty ++ "(" ++ p));
                         (KStr (q ++ ")"), PStr "VARCHAR(255)")]);
                 (KStr "primary_key", PNone);
                 (KStr "foreign_keys", PList [])])]).
Proof.
  intros Ht Hn Hty Hp Hq.
  rewrite single_statement_parsed.
  - now rewrite table_of_body_comma_in_type.
  - exact Ht.
  - pose proof (column_name_inv n Hn) as (_ & Wn & _).
    apply is_ident_inv in Hty as [_ Wt], Hp as [_ Wp], Hq as [_ Wq].
    rewrite !has_char_app, (word_has_no ";" n), (word_has_no ";" ty),
      (word_has_no ";" p), (word_has_no ";" q) by auto.
    reflexivity.
Qed.

Lemma comma_in_type_parsed_witness :
  parse_sql_schema "CREATE TABLE items (price DECIMAL(10,2));"
  = Ok (PDict [(KStr "items",
          PDict [(KStr "columns",
                  PDict [(KStr "price", PStr "DECIMAL(10");
                         (KStr "2)", PStr "VARCHAR(255)")]);
                 (KStr "primary_key", PNone);
                 (KStr "foreign_keys", PList [])])]).
Proof.
  exact (comma_in_type_parsed "items" "price" "DECIMAL" "10" "2"
           eq_refl eq_refl eq_refl eq_refl eq_refl).
Defined.

(** *** A table with no columns in a schema *)

(** C10. In a schema that is formatted as a whole, a table whose
    ['columns'] is there and empty has the [Columns:] line with nothing
    under it, between its [Table:] line and what follows; the
    [Primary Key:] line is there exactly when ['primary_key'] is there
    and true, and the [Foreign Keys:] block exactly when
    ['foreign_keys'] is there and true (the formatter raises when such
    a value cannot be iterated). *)
Theorem format_schema_empty_columns before after name info xb xa :
  dict_get info (KStr "columns") = Some (PDict []) ->
  format_schema_for_prompt (PDict before) = Ok (header ++ xb) ->
  format_schema_for_prompt (PDict after) = Ok (header ++ xa) ->
  format_schema_for_prompt (PDict (before ++ (name, PDict info) :: after))
  = (fk_block <- foreign_keys_block info ;;
     Ok (header ++ xb ++ "Table: " ++ key_str name ++ nl
                ++ "Columns:" ++ nl
                ++ primary_key_line info ++ fk_block ++ nl ++ xa))
  /\ (primary_key_line info <> ""
      <-> exists pk, dict_get info (KStr "primary_key") = Some pk
                     /\ truthy pk = true)
  /\ (foreign_keys_block info <> Ok ""
      <-> exists fks, dict_get info (KStr "foreign_keys") = Some fks
                      /\ truthy fks = true).
Proof.
  intros Hc Hb Ha. split; [|split].
  - rewrite format_schema_text in Hb, Ha. rewrite format_schema_text.
    rewrite tables_text_app.
    destruct (tables_text before) as [yb|e]; [|discriminate].
    cbn [bind] in *. cbn [tables_text].
    destruct (tables_text after) as [ya|e]; [|discriminate].
    cbn [bind] in *. inversion Hb. inversion Ha. subst yb ya.
    unfold table_text, table_body, columns_block. cbn [fst snd].
    rewrite Hc. cbn [items bind map String.concat].
    destruct (foreign_keys_block info) as [fk|e]; cbn [bind]; [|reflexivity].
    rewrite ?app_assoc_s, ?app_nil_r_s. reflexivity.
  - unfold primary_key_line.
    destruct (dict_get info (KStr "primary_key")) as [pk|].
    + destruct (truthy pk) eqn:E; split.
      * eauto.
      * discriminate.
      * congruence.
      * intros (pk' & H & Hp). congruence.
    + split; [congruence | intros (pk & H & _); discriminate].
  - unfold foreign_keys_block.
    destruct (dict_get info (KStr "foreign_keys")) as [fks|].
    + destruct (truthy fks) eqn:E; split.
      * eauto.
      * intros _. destruct (iterate fks); discriminate.
      * congruence.
      * intros (fks' & H & Hp). congruence.
    + split; [congruence | intros (pk & H & _); discriminate].
Qed.

Lemma format_schema_empty_columns_witness :
  format_schema_for_prompt
    (PDict [(KStr "a", PNone);
            (KStr "t", PDict [(KStr "columns", PDict []);
                              (KStr "primary_key", PNone);
                              (KStr "foreign_keys", PList [])]);
            (KStr "b", PDict [(KStr "primary_key", PStr "id")])])
  = Ok ("DATABASE SCHEMA:" ++ nl ++ nl
          ++ "Table: a" ++ nl ++ nl
          ++ "Table: t" ++ nl ++ "Columns:" ++ nl ++ nl
          ++ "Table: b" ++ nl ++ "Primary Key: id" ++ nl ++ nl).
Proof.
  exact (proj1 (format_schema_empty_columns
                  [(KStr "a", PNone)]
                  [(KStr "b", PDict [(KStr "primary_key", PStr "id")])]
                  (KStr "t")
                  [(KStr "columns", PDict []);
                   (KStr "primary_key", PNone);
                   (KStr "foreign_keys", PList [])]
                  ("Table: a" ++ nl ++ nl)
                  ("Table: b" ++ nl ++ "Primary Key: id" ++ nl ++ nl)
                  eq_refl eq_refl eq_refl)).
Defined.

